(** * python-mingus: MIDI byte encoder and score sequencer

    A shallow embedding of [mingus/midi/midi_track.py] (class [MidiTrack]),
    [mingus/midi/sequencer2.py] (class [Sequencer]),
    [mingus/containers/track.py] ([MidiControl], [ControlChangeEvent]) and of
    the parts of [mingus/containers/note.py] they use, followed by the
    properties of the design document that concern them.

    Conventions.
    - Python integers are [Z]; [>>], [<<], [&], [|] are [Z.shiftr],
      [Z.shiftl], [Z.land], [Z.lor]; [//] is [Z.div] (both round down).
    - A [bytes] object is a [list Z] whose elements lie in [0, 255].
    - A method that mutates [self] is a function from the object to the
      object left behind and an [outcome]: the value returned or the
      exception raised.  An exception keeps every write made before it.
    - A Python [float] is an IEEE 754 double ([spec_float] with 53 bits of
      precision): division, multiplication and addition round to the
      nearest double, ties to even, and [round] is computed on the double
      that the code has reached.  A number is an [int] or a [float]
      ([py_number]).
    - The logarithm [int(log(max(value, 1), 0x80))] is not computed here:
      it is the operation [int_log] of the class [PyMath].
    - The argument of the synthesizer's [sleep] is given as the exact
      quotient ([Q]) of which the code hands over the nearest double. *)

From Stdlib Require Import ZArith QArith Ascii String List Lia DecimalString DecimalZ.
From Stdlib Require Import SpecFloat.
From stdpp Require Import base option numbers list gmap sorting.

Local Open Scope Z_scope.

(** ** Exceptions and the state-and-exception monad *)

Inductive exn :=
| AssertionError
| TypeError
| ValueError
| IndexError
| ZeroDivisionError
| OverflowError
| NoteFormatError
| binascii_Error
| struct_error.

Inductive outcome (A : Type) :=
| Ok (a : A)
| Raise (e : exn).
Arguments Ok {A} a.
Arguments Raise {A} e.

Definition outcome_bind {A B} (x : outcome A) (f : A -> outcome B) : outcome B :=
  match x with
  | Ok a => f a
  | Raise e => Raise e
  end.

Definition is_Ok {A} (x : outcome A) : bool :=
  match x with Ok _ => true | Raise _ => false end.

(** A computation on an object of type [S]: the object after the call and
    what the call returned or raised. *)
Definition M (S A : Type) : Type := S -> S * outcome A.

Definition ret {S A} (a : A) : M S A := fun s => (s, Ok a).

Definition raise {S A} (e : exn) : M S A := fun s => (s, Raise e).

Definition bind {S A B} (m : M S A) (f : A -> M S B) : M S B :=
  fun s =>
    match m s with
    | (s', Ok a) => f a s'
    | (s', Raise e) => (s', Raise e)
    end.

(** A call that only reads the object. *)
Definition lift {S A} (f : S -> outcome A) : M S A := fun s => (s, f s).

Definition modify {S} (f : S -> S) : M S unit := fun s => (f s, Ok tt).

Declare Scope py_scope.
Delimit Scope py_scope with py.
Notation "x <- m ;; k" := (bind m (fun x => k))
  (at level 63, m at next level, right associativity) : py_scope.
Notation "m ;;; k" := (bind m (fun _ => k))
  (at level 63, right associativity) : py_scope.
Notation "x <~ m ;; k" := (outcome_bind m (fun x => k))
  (at level 63, m at next level, right associativity) : py_scope.
Local Open Scope py_scope.

(** [[f(x) for x in xs]] evaluated for its effects: left to right, stopping
    at the first exception. *)
Fixpoint for_each {S A} (f : A -> M S unit) (xs : list A) : M S unit :=
  match xs with
  | [] => ret tt
  | x :: xs' => f x ;;; for_each f xs'
  end.

(** [assert c] *)
Definition assert (c : bool) : outcome unit :=
  if c then Ok tt else Raise AssertionError.

(** An operand of an integer comparison: comparing [None] with an [int]
    raises [TypeError]. *)
Definition int_operand (x : option Z) : outcome Z :=
  match x with
  | Some n => Ok n
  | None => Raise TypeError
  end.

(** ** Byte strings *)

Abbreviation bytes := (list Z).

Definition is_byte (b : Z) : bool := (0 <=? b) && (b <? 256).

(** [bytes(l)]: every element must be in [range(256)], else [ValueError]. *)
Definition bytes_of_list (l : list Z) : outcome bytes :=
  if forallb is_byte l then Ok l else Raise ValueError.

(** [pack("%sB" % len(l), *l)]: every element must be an unsigned byte,
    else [struct.error]. *)
Definition pack_B (l : list Z) : outcome bytes :=
  if forallb is_byte l then Ok l else Raise struct_error.

(** *** ["%06x" % v] and [binascii.a2b_hex] *)

Definition hex_char (d : Z) : ascii :=
  match d with
  | 0 => "0" | 1 => "1" | 2 => "2" | 3 => "3" | 4 => "4" | 5 => "5"
  | 6 => "6" | 7 => "7" | 8 => "8" | 9 => "9" | 10 => "a" | 11 => "b"
  | 12 => "c" | 13 => "d" | 14 => "e" | _ => "f"
  end%char.

(** The hexadecimal digits of [v >= 0], most significant first, pushed in
    front of [acc]; at least one digit. *)
Fixpoint hex_digits (fuel : nat) (v : Z) (acc : list ascii) : list ascii :=
  match fuel with
  | O => acc
  | S fuel' =>
      let acc' := hex_char (v mod 16) :: acc in
      if v <? 16 then acc' else hex_digits fuel' (v / 16) acc'
  end.

(** ["%x" % v] for [v >= 0]. *)
Definition format_x (v : Z) : list ascii :=
  hex_digits (S (Z.to_nat (Z.log2 v))) v [].

(** ["%0<width>x" % v]: the sign, if any, then zeros up to [width]
    characters, then the digits; never truncated. *)
Definition format_0x (width : nat) (v : Z) : list ascii :=
  let sign := if v <? 0 then ["-"%char] else [] in
  let digits := format_x (Z.abs v) in
  sign ++ replicate (width - length sign - length digits) "0"%char ++ digits.

(** The value of a hexadecimal digit, in either case, from its character
    code. *)
Definition hex_val (c : ascii) : option Z :=
  let code := Z.of_N (N_of_ascii c) in
  if (48 <=? code) && (code <=? 57) then Some (code - 48)
  else if (97 <=? code) && (code <=? 102) then Some (code - 87)
  else if (65 <=? code) && (code <=? 70) then Some (code - 55)
  else None.

Fixpoint a2b_hex_pairs (s : list ascii) : outcome bytes :=
  match s with
  | [] => Ok []
  | [_] => Raise binascii_Error
  | c1 :: c2 :: rest =>
      match hex_val c1, hex_val c2 with
      | Some hi, Some lo => bs <~ a2b_hex_pairs rest ;; Ok (hi * 16 + lo :: bs)
      | _, _ => Raise binascii_Error
      end
  end.

(** [a2b_hex(s)]: [binascii.Error] on an odd number of characters or on a
    character that is no hexadecimal digit. *)
Definition a2b_hex (s : list ascii) : outcome bytes :=
  if Nat.even (length s) then a2b_hex_pairs s else Raise binascii_Error.

(** ** Numbers *)

(** A [float]: a double. *)
Abbreviation float := spec_float.

(** [x / y], [x * y] and [x + y] on doubles, where no exception is
    raised. *)
Definition fdiv (x y : float) : float := SFdiv 53 1024 x y.

Definition fmul (x y : float) : float := SFmul 53 1024 x y.

Definition fadd (x y : float) : float := SFadd 53 1024 x y.

(** The double nearest to the integer [n]; an infinity if [n] is beyond
    the doubles. *)
Definition nearest_float (n : Z) : float := binary_normalize 53 1024 n 0 false.

(** An [int] or a [float]. *)
Inductive py_number :=
| py_int (n : Z)
| py_float (x : float).

(** [float(n)] for an [int]: [OverflowError] if [n] is too large. *)
Definition float_of_int (n : Z) : outcome float :=
  match nearest_float n with
  | S754_infinity _ => Raise OverflowError
  | x => Ok x
  end.

(** The conversion of an operand to a double. *)
Definition to_float (a : py_number) : outcome float :=
  match a with
  | py_int n => float_of_int n
  | py_float x => Ok x
  end.

Definition is_zero (x : float) : bool :=
  match x with
  | S754_zero _ => true
  | _ => false
  end.

(** [bool(a)]: a number is false when it is zero. *)
Definition truth (a : py_number) : bool :=
  match a with
  | py_int n => negb (n =? 0)
  | py_float x => negb (is_zero x)
  end.

(** [a / b].  Two integers give the double nearest to their quotient;
    otherwise both operands are converted first.  A divisor of zero raises
    [ZeroDivisionError]. *)
Definition truediv (a b : py_number) : outcome float :=
  match a, b with
  | py_int n, py_int d =>
      if d =? 0 then Raise ZeroDivisionError
      else if n =? 0 then Ok (S754_zero (d <? 0))
      else
        match fdiv (S754_finite (n <? 0) (Z.to_pos (Z.abs n)) 0)
                (S754_finite (d <? 0) (Z.to_pos (Z.abs d)) 0) with
        | S754_infinity _ => Raise OverflowError
        | q => Ok q
        end
  | _, _ =>
      x <~ to_float a ;;
      y <~ to_float b ;;
      if is_zero y then Raise ZeroDivisionError else Ok (fdiv x y)
  end.

(** [x * b] for a [float] [x]. *)
Definition float_times (x : float) (b : py_number) : outcome float :=
  y <~ to_float b ;; Ok (fmul x y).

(** [a + b]: exact on two integers, on doubles otherwise. *)
Definition plus (a b : py_number) : outcome py_number :=
  match a, b with
  | py_int m, py_int n => Ok (py_int (m + n))
  | _, _ => x <~ to_float a ;; y <~ to_float b ;; Ok (py_float (fadd x y))
  end.

(** Rounding of an exact quotient to the nearest integer, a tie going to
    the even one. *)
Definition py_round (x : Q) : Z :=
  let n := Qnum x in
  let d := Z.pos (Qden x) in
  let lo := n / d in
  let r := n mod d in
  match 2 * r ?= d with
  | Lt => lo
  | Gt => lo + 1
  | Eq => if Z.even lo then lo else lo + 1
  end.

(** [round(x)] for a [float]: the nearest integer, a tie going to the even
    one; [OverflowError] for an infinity and [ValueError] for a NaN. *)
Definition float_round (x : float) : outcome Z :=
  match x with
  | S754_zero _ => Ok 0
  | S754_infinity _ => Raise OverflowError
  | S754_nan => Raise ValueError
  | S754_finite s m e =>
      let n := if s then Z.neg m else Z.pos m in
      Ok (if 0 <=? e then n * 2 ^ e
          else py_round (n # Z.to_pos (2 ^ (- e))))
  end.

(** ** What the source imports from outside [src/] *)

(** The constants of [mingus.midi.midi_events] that [MidiTrack] uses.  The
    module is not part of the sources at hand, so the encoder is stated over
    any assignment of them; [standard_midi_events] below is the assignment of
    the Standard MIDI File format. *)
Class midi_events := {
  NOTE_OFF : Z;
  NOTE_ON : Z;
  CONTROLLER : Z;
  PROGRAM_CHANGE : Z;
  BANK_SELECT : Z;
  META_EVENT : bytes;
  SET_TEMPO : bytes
}.

Definition standard_midi_events : midi_events := {|
  NOTE_OFF := 0x8;
  NOTE_ON := 0x9;
  CONTROLLER := 0xB;
  PROGRAM_CHANGE := 0xC;
  BANK_SELECT := 0x0;
  META_EVENT := [0xFF];
  SET_TEMPO := [0x51]
|}.

(** [int_log x base] is the integer that Python computes for
    [int(math.log(x, base))] when [x >= 1]: a quotient of two
    double-precision logarithms, truncated.  Its value depends on how the
    platform rounds, which is outside this development. *)
Class PyMath := {
  int_log : Z -> Z -> Z
}.

(** The logarithm without rounding error: the largest [k] with
    [base ^ k <= x], for [base = 2 ^ 7]. *)
Definition exact_log128 : PyMath := {|
  int_log := fun x _ => Z.log2 x / 7
|}.

(** An [int_log] that answers [7] at [128 ^ 7 - 1 = 562949953421311], as
    [int(math.log(562949953421311, 128))] does in double precision (the two
    logarithms round to a quotient of exactly [7.0]); elsewhere it is given
    the exact value.  It serves to run the encoder at that tick count. *)
Definition double_log128 : PyMath := {|
  int_log := fun x _ => if x =? 562949953421311 then 7 else Z.log2 x / 7
|}.

(** [mingus.core.notes.note_to_int] on a one-letter name; [None] stands for
    the [NoteFormatError] it raises on anything else. *)
Class core_notes := {
  note_to_int : ascii -> option Z
}.

Definition standard_notes : core_notes := {|
  note_to_int := fun c =>
    match c with
    | "C" => Some 0 | "D" => Some 2 | "E" => Some 4 | "F" => Some 5
    | "G" => Some 7 | "A" => Some 9 | "B" => Some 11
    | _ => None
    end%char
|}.

(** ** [mingus/containers/note.py] *)

(** A [Note] (name, octave, velocity, channel) or a [PercussionNote] (name,
    key number, velocity, channel, duration).  [channel] is [None] unless it
    was given. *)
Inductive Note :=
| MkNote (name : string) (octave : Z) (velocity : Z) (channel : option Z)
| MkPercussionNote (name : string) (key_number : Z) (velocity : Z)
    (channel : option Z) (duration : option Z).

Definition Note_velocity (n : Note) : Z :=
  match n with
  | MkNote _ _ v _ => v
  | MkPercussionNote _ _ v _ _ => v
  end.

Definition Note_channel (n : Note) : option Z :=
  match n with
  | MkNote _ _ _ c => c
  | MkPercussionNote _ _ _ c _ => c
  end.


(** The loop of [Note.__int__] over [self.name[1:]]. *)
Fixpoint accidentals (s : string) (res : Z) : Z :=
  match s with
  | EmptyString => res
  | String c s' =>
      accidentals s'
        (if Ascii.eqb c "#" then res + 1
         else if Ascii.eqb c "b" then res - 1
         else res)
  end.

(** [int(n)]: [Note.__int__] and [PercussionNote.__int__]. *)
Definition Note_int `{core_notes} (n : Note) : outcome Z :=
  match n with
  | MkNote name octave _ _ =>
      match name with
      | EmptyString => Raise IndexError
      | String c rest =>
          match note_to_int c with
          | Some k => Ok (accidentals rest (octave * 12 + k))
          | None => Raise NoteFormatError
          end
      end
  | MkPercussionNote _ key_number _ _ _ => Ok key_number
  end.

(** ** [mingus/midi/midi_track.py]: class [MidiTrack] *)

Record MidiTrack := {
  track_data : bytes;
  delta_time : bytes;
  delay : Z;
  bpm : Z;
  change_instrument : bool;
  instrument : Z
}.

(** [self.bpm], for where a parameter is called [bpm] too. *)
Definition MidiTrack_bpm (self : MidiTrack) : Z := bpm self.

Definition with_track_data (d : bytes) (self : MidiTrack) : MidiTrack :=
  {| track_data := d; delta_time := delta_time self; delay := delay self;
     bpm := bpm self; change_instrument := change_instrument self;
     instrument := instrument self |}.

Definition with_delta_time (d : bytes) (self : MidiTrack) : MidiTrack :=
  {| track_data := track_data self; delta_time := d; delay := delay self;
     bpm := bpm self; change_instrument := change_instrument self;
     instrument := instrument self |}.

Definition with_bpm (b : Z) (self : MidiTrack) : MidiTrack :=
  {| track_data := track_data self; delta_time := delta_time self;
     delay := delay self; bpm := b;
     change_instrument := change_instrument self;
     instrument := instrument self |}.

Definition with_change_instrument (b : bool) (self : MidiTrack) : MidiTrack :=
  {| track_data := track_data self; delta_time := delta_time self;
     delay := delay self; bpm := bpm self; change_instrument := b;
     instrument := instrument self |}.

(** [self.track_data += f(self)]: the right-hand side is evaluated first; if
    it raises, nothing is written. *)
Definition append_track_data (f : MidiTrack -> outcome bytes) : M MidiTrack unit :=
  bs <- lift f ;; modify (fun self => with_track_data (track_data self ++ bs) self).

(** The loop [for i in range(len(bytes) - 1): bytes[i] = bytes[i] | 0x80]:
    every element but the last gets its high bit. *)
Fixpoint set_continuation (l : list Z) : list Z :=
  match l with
  | [] => []
  | [b] => [b]
  | b :: l' => Z.lor b 0x80 :: set_continuation l'
  end.

Section MidiTrack_methods.
Context `{midi_events} `{PyMath} `{core_notes}.

(** [int_to_varbyte(value)] *)
Definition int_to_varbyte (value : Z) : outcome bytes :=
  let length := int_log (Z.max value 1) 0x80 + 1 in
  let bytes := (fun i => Z.land (Z.shiftr value (i * 7)) 0x7F) <$> seqZ 0 length in
  let bytes := reverse bytes in
  let bytes := set_continuation bytes in
  pack_B bytes.

(** [midi_event(event_type, channel, param1, param2=None)].  [channel] and
    [param1] may be [None] objects handed down from a note; [param2 = None]
    is the absent parameter. *)
Definition midi_event (event_type : Z) (channel param1 param2 : option Z)
    (self : MidiTrack) : outcome bytes :=
  _ <~ assert ((0 <=? event_type) && (event_type <? 16)) ;;
  c <~ int_operand channel ;;
  _ <~ assert ((0 <=? c) && (c <? 16)) ;;
  p1 <~ int_operand param1 ;;
  _ <~ assert ((0 <=? p1) && (p1 <=? 0x7F)) ;;
  _ <~ match param2 with
       | None => Ok tt
       | Some p2 => assert ((0 <=? p2) && (p2 <=? 0x7F))
       end ;;
  let status_byte := Z.lor c (Z.shiftl event_type 4) in
  let params := [p1] ++ match param2 with Some p2 => [p2] | None => [] end in
  b <~ bytes_of_list ([status_byte] ++ params) ;;
  Ok (delta_time self ++ b).

Definition note_off (channel : option Z) (note velocity : Z) :=
  midi_event NOTE_OFF channel (Some note) (Some velocity).

Definition note_on (channel : option Z) (note velocity : Z) :=
  midi_event NOTE_ON channel (Some note) (Some velocity).

Definition controller_event (channel contr_nr : option Z) (contr_val : Z) :=
  midi_event CONTROLLER channel contr_nr (Some contr_val).

(** [select_bank(channel, bank)] calls
    [controller_event(BANK_SELECT, channel, bank)]. *)
Definition select_bank (channel : option Z) (bank : Z) :=
  controller_event (Some BANK_SELECT) channel bank.

Definition program_change_event (channel : option Z) (instr : Z) :=
  midi_event PROGRAM_CHANGE channel (Some instr) None.

(** [set_instrument(channel, instr, bank=1)] *)
Definition set_instrument (channel : option Z) (instr : Z) (bank : Z)
    : M MidiTrack unit :=
  append_track_data (select_bank channel bank) ;;;
  append_track_data (program_change_event channel instr).

(** [set_deltatime(delta_time)] with an [int] argument. *)
Definition set_deltatime (delta : Z) : M MidiTrack unit :=
  d <- lift (fun _ => int_to_varbyte delta) ;;
  modify (with_delta_time d).

(** [set_deltatime(delta_time)] with a [bytes] argument. *)
Definition set_deltatime_bytes (delta : bytes) : M MidiTrack unit :=
  modify (with_delta_time delta).

(** [set_tempo_event(bpm)]; [60000000 // 0] raises. *)
Definition set_tempo_event (bpm : Z) (self : MidiTrack) : outcome bytes :=
  let ms_per_min := 60000000 in
  if bpm =? 0 then Raise ZeroDivisionError else
  mpqn <~ a2b_hex (format_0x 6 (ms_per_min / bpm)) ;;
  Ok (delta_time self ++ META_EVENT ++ SET_TEMPO ++ [0x03] ++ mpqn).

Definition set_tempo (bpm : Z) : M MidiTrack unit :=
  modify (with_bpm bpm) ;;;
  append_track_data (fun self => set_tempo_event (MidiTrack_bpm self) self).

(** [play_Note(note)] *)
Definition play_Note (note : Note) : M MidiTrack unit :=
  let channel := Note_channel note in
  let velocity := Note_velocity note in
  pending <- lift (fun self => Ok (change_instrument self)) ;;
  (if pending : bool then
     instr <- lift (fun self => Ok (instrument self)) ;;
     set_instrument channel instr 1 ;;;
     modify (with_change_instrument false)
   else ret tt) ;;;
  lift (fun _ => assert ((0 <=? velocity) && (velocity <=? 0x7F))) ;;;
  pitch <- lift (fun _ => Note_int note) ;;
  append_track_data (note_on channel (pitch + 12) velocity).

(** [stop_Note(note)] *)
Definition stop_Note (note : Note) : M MidiTrack unit :=
  let channel := Note_channel note in
  let velocity := Note_velocity note in
  pitch <- lift (fun _ => Note_int note) ;;
  append_track_data (note_off channel (pitch + 12) velocity).

(** [play_NoteContainer(notecontainer)]; the container is the list of its
    notes. *)
Definition play_NoteContainer (notecontainer : list Note) : M MidiTrack unit :=
  match notecontainer with
  | [] | [_] => for_each play_Note notecontainer
  | first :: others =>
      play_Note first ;;;
      set_deltatime 0 ;;;
      for_each play_Note others
  end.

(** [stop_NoteContainer(notecontainer)] *)
Definition stop_NoteContainer (notecontainer : list Note) : M MidiTrack unit :=
  match notecontainer with
  | [] | [_] => for_each stop_Note notecontainer
  | first :: others =>
      stop_Note first ;;;
      set_deltatime 0 ;;;
      for_each stop_Note others
  end.

(** The class attributes: a [MidiTrack] before [__init__] has run. *)
Definition MidiTrack_attributes : MidiTrack :=
  {| track_data := []; delta_time := [0x00]; delay := 0; bpm := 120;
     change_instrument := false; instrument := 1 |}.

(** [MidiTrack.__init__(start_bpm)] *)
Definition MidiTrack_init (start_bpm : Z) : M MidiTrack unit :=
  modify (with_track_data []) ;;;
  set_tempo start_bpm.

End MidiTrack_methods.

(** ** [mingus/containers/track.py]: [MidiControl] and [ControlChangeEvent] *)

Inductive MidiControl :=
| VIBRATO | VOLUME | PAN | EXPRESSION | SUSTAIN | REVERB | CHORUS.

(** [control.value] *)
Definition MidiControl_value (c : MidiControl) : Z :=
  match c with
  | VIBRATO => 1
  | VOLUME => 7
  | PAN => 10
  | EXPRESSION => 11
  | SUSTAIN => 64
  | REVERB => 91
  | CHORUS => 93
  end.

(** An entry of a score bucket: the dictionaries with key ['func'] equal to
    ['start_note'], ['end_note'] or ['control_change'], and any other
    dictionary, which playback passes over. *)
Inductive event :=
| start_note (note : Note) (channel velocity : Z)
| end_note (note : Note) (channel velocity : Z)
| control_change (channel : Z) (control : MidiControl) (value : Z)
| other_func (func : string).

(** The score: a [dict] from time in milliseconds to the list of things to
    do then. *)
Abbreviation Score := (gmap Z (list event)).

(** [score.setdefault(t, []).append(e)] *)
Definition record_at (t : Z) (e : event) (score : Score) : Score :=
  <[t := default [] (score !! t) ++ [e]]> score.

Module ControlChangeEvent.

Record t := {
  beat : py_number;
  control : MidiControl;
  value : Z
}.

(** The timestamp [round((self.beat / bpm) * 60000.0)], in milliseconds. *)
Definition timestamp (self : t) (bpm : py_number) : outcome Z :=
  q <~ truediv (beat self) bpm ;;
  float_round (fmul q (nearest_float 60000)).

(** [put_into_score(score, channel, bpm)] *)
Definition put_into_score (self : t) (channel : Z) (bpm : py_number) : M Score unit :=
  t <- lift (fun _ => timestamp self bpm) ;;
  modify (record_at t (control_change channel (control self) (value self))).

End ControlChangeEvent.

(** ** [mingus/midi/sequencer2.py]: class [Sequencer] *)

(** The two attributes of an instrument that the sequencer reads. *)
Record MidiInstrument := {
  number : Z;
  bank : Z
}.

Record Sequencer := {
  score : Score;
  instruments : list (Z * MidiInstrument)
}.

Definition with_score (f : Score -> Score) (self : Sequencer) : Sequencer :=
  {| score := f (score self); instruments := instruments self |}.

(** A method of another object that works on [self.score], which it is
    handed, run as a method of the sequencer. *)
Definition on_score {A} (m : M Score A) : M Sequencer A :=
  fun self =>
    let '(s, r) := m (score self) in
    ({| score := s; instruments := instruments self |}, r).

(** Modelled from the spec: a bar, whose class is missing from the
    sources.  The design document has each bar write its notes into the
    score and contribute its own duration to the running start time.  So a
    bar is its [bpm] attribute ([None] or a number) and its method
    [play(start_time, bpm, channel, score)], any computation on the score
    that returns a number or raises. *)
Record Bar := {
  bar_bpm : option py_number;
  bar_play : py_number -> py_number -> Z -> M Score py_number
}.

(** Modelled from the spec: a snippet, whose class is missing from the
    sources.  The design document has pre-rendered snippets merged into the
    score at their own offsets.  So a snippet is its method
    [put_into_score(score, channel, bpm)], any computation on the score. *)
Record Snippet := {
  snippet_put_into_score : Z -> py_number -> M Score unit
}.

(** A track, as the sequencer reads it: its bars, snippets and events, its
    [bpm], taken to be a number, and its instrument, which may be
    [None]. *)
Record Track := {
  bars : list Bar;
  snippets : list Snippet;
  events : list ControlChangeEvent.t;
  track_bpm : py_number;
  track_instrument : option MidiInstrument
}.

(** [x or y] on numbers that may be [None]. *)
Definition or_bpm (x : option py_number) (y : py_number) : py_number :=
  match x with
  | Some b => if truth b then b else y
  | None => y
  end.

(** The first loop of [Sequencer.play_Track]; returns the [bpm] left by the
    last bar. *)
Fixpoint play_bars (bs : list Bar) (start_time : py_number) (bpm : py_number)
    (channel : Z) : M Sequencer py_number :=
  match bs with
  | [] => ret bpm
  | bar :: bs' =>
      let bpm := or_bpm (bar_bpm bar) bpm in
      len <- on_score (bar_play bar start_time bpm channel) ;;
      start_time <- lift (fun _ => plus start_time len) ;;
      play_bars bs' start_time bpm channel
  end.

(** [Sequencer.play_Track(track, channel, bpm)] *)
Definition play_Track (track : Track) (channel : Z) (bpm : py_number)
    : M Sequencer unit :=
  bpm <- play_bars (bars track) (py_int 0) bpm channel ;;
  for_each (fun snippet =>
      on_score (snippet_put_into_score snippet channel bpm))
    (snippets track) ;;;
  for_each (fun event =>
      on_score (ControlChangeEvent.put_into_score event channel bpm))
    (events track).

(** *** The synthesizer *)

(** A call received by the synthesizer that [play_score] drives.  The
    argument of [synth_sleep] is in seconds. *)
Inductive sink_call :=
| synth_set_instrument (channel number bank : Z)
| synth_play_note (note : Note) (channel velocity : Z)
| synth_stop_note (note : Note) (channel : Z)
| synth_play_percussion_note (note : Note) (channel velocity : Z)
| synth_stop_percussion_note (note : Note) (channel : Z)
| synth_control_change (channel control value : Z)
| synth_sleep (seconds : Q).

(** What a run of [play_score] can touch: the sequencer itself, the
    synthesizer (the calls it has received, oldest first) and the
    cancellation predicate (how often it has been asked). *)
Record world := {
  self_ : Sequencer;
  calls : list sink_call;
  polls : nat
}.



(** [sortedcontainers.SortedDict(score).items()]: the entries by ascending
    key. *)
Definition key_le (a b : Z * list event) : Prop := a.1 <= b.1.

Global Instance key_le_dec : RelDecision key_le.
Proof. intros a b. unfold key_le. apply _. Defined.

Global Instance key_le_total : Total key_le.
Proof. intros a b. unfold key_le. lia. Qed.

Global Instance key_le_trans : Transitive key_le.
Proof. intros a b c. unfold key_le. lia. Qed.

Definition SortedDict_items (score : Score) : list (Z * list event) :=
  merge_sort key_le (map_to_list score).





(** [Sequencer.play_Tracks(tracks, channels, bpm)]: the first loop ... *)
Fixpoint add_instruments (tracks : list Track) (channels : list Z) (track_num : nat)
    : M Sequencer unit :=
  match tracks with
  | [] => ret tt
  | track :: tracks' =>
      match track_instrument track with
      | None => ret tt
      | Some instr =>
          channel <- lift (fun _ =>
            match channels !! track_num with
            | Some c => Ok c
            | None => Raise IndexError
            end) ;;
          modify (fun self =>
            {| score := score self;
               instruments := instruments self ++ [(channel, instr)] |})
      end ;;;
      add_instruments tracks' channels (S track_num)
  end.

(** ... and the second, over [zip(tracks, channels)]. *)
Fixpoint render_tracks (tracks : list Track) (channels : list Z)
    (bpm : option py_number)
    : M Sequencer unit :=
  match tracks, channels with
  | track :: tracks', channel :: channels' =>
      let bpm := or_bpm bpm (track_bpm track) in
      play_Track track channel bpm ;;;
      render_tracks tracks' channels' (Some bpm)
  | _, _ => ret tt
  end.

Definition play_Tracks (tracks : list Track) (channels : list Z)
    (bpm : option py_number) : M Sequencer unit :=
  add_instruments tracks channels 0 ;;;
  render_tracks tracks channels bpm.

(** *** Persistence *)

(** [str(k)] for an [int]. *)
Definition str_of_int (k : Z) : string := NilZero.string_of_int (Z.to_int k).

(** The characters that [int] skips at both ends of a string: the white
    space of ASCII and, of the characters from 128 to 255, the two spaces
    U+0085 and U+00A0. *)
Definition is_space (c : ascii) : bool :=
  let code := Z.of_N (N_of_ascii c) in
  ((9 <=? code) && (code <=? 13)) || (code =? 32) || (code =? 133) || (code =? 160).

Fixpoint drop_spaces (s : string) : string :=
  match s with
  | EmptyString => s
  | String c s' => if is_space c then drop_spaces s' else s
  end.

Definition digit_val (c : ascii) : option Z :=
  let code := Z.of_N (N_of_ascii c) in
  if (48 <=? code) && (code <=? 57) then Some (code - 48) else None.

(** Where the reading of the digits stands: nothing read yet, a digit
    last, or an underscore last. *)
Inductive digit_state :=
| at_start
| after_digit
| after_underscore.

(** The digits of a literal, with single underscores between digits only;
    answers the value read, in base 10, and what follows the digits. *)
Fixpoint digits_from (s : string) (acc : Z) (state : digit_state)
    : option (Z * string) :=
  match s with
  | EmptyString =>
      match state with
      | after_digit => Some (acc, s)
      | _ => None
      end
  | String c s' =>
      match digit_val c with
      | Some d => digits_from s' (acc * 10 + d) after_digit
      | None =>
          match state with
          | after_digit =>
              if Ascii.eqb c "_" then digits_from s' acc after_underscore
              else Some (acc, s)
          | _ => None
          end
      end
  end.

(** [int(s)] for a string: white space, an optional sign, decimal digits
    with single underscores between them, white space; [ValueError]
    otherwise.  (The limit that some interpreters set on the number of
    digits is left out, here and in [str].) *)
Definition int_of_str (s : string) : outcome Z :=
  let s := drop_spaces s in
  let '(negative, s) :=
    match s with
    | String c s' =>
        if Ascii.eqb c "-" then (true, s')
        else if Ascii.eqb c "+" then (false, s')
        else (false, s)
    | EmptyString => (false, s)
    end in
  match digits_from s 0 at_start with
  | Some (n, rest) =>
      match drop_spaces rest with
      | EmptyString => Ok (if negative : bool then - n else n)
      | String _ _ => Raise ValueError
      end
  | None => Raise ValueError
  end.

(** Modelled from the spec: the serializer [mingus.tools.mingus_json], whose
    source is missing.  The design document describes the snapshot as
    [{ "instruments": [[channel, instrument], ...],
       "score": { "<timestamp_ms>": [event_dict, ...] } }], written by a
    generic structured serializer that is lossless on event fields.  So the
    serializer is a type [json] of written events with a writer and a reader
    for one event; the law that reading undoes writing is the hypothesis
    [from_to_json] where it is needed. *)
Class mingus_json := {
  json : Type;
  to_json : event -> json;
  from_json : json -> outcome event
}.

(** The serializer that writes an event as itself. *)
Definition transparent_json : mingus_json := {|
  json := event;
  to_json := fun e => e;
  from_json := fun j => Ok j
|}.

(** The dictionary [to_save] built by [save_tracks]; a [dict] keeps its
    entries in the order of insertion. *)
Record to_save := {
  save_instruments : list (Z * MidiInstrument);
  save_score : list (Z * list event)
}.

(** [map f l] for an [f] that may raise: left to right, stopping at the first
    exception. *)
Fixpoint traverse {A B} (f : A -> outcome B) (l : list A) : outcome (list B) :=
  match l with
  | [] => Ok []
  | x :: l' => y <~ f x ;; ys <~ traverse f l' ;; Ok (y :: ys)
  end.

Section Persistence.
Context `{mingus_json}.

(** The document on disk: the members of its ["score"] object, in the
    order written, under their string keys. *)
Record document := {
  doc_instruments : list (Z * MidiInstrument);
  doc_score : list (string * list json)
}.

(** What [mingus_json.load] hands back: the ["score"] dictionary still has
    string keys. *)
Record loaded := {
  data_instruments : list (Z * MidiInstrument);
  data_score : list (string * list event)
}.

(** Modelled from the spec: [mingus_json.dump], whose source is missing.
    Integer keys are written as their decimal strings, events through
    [to_json]. *)
Definition mingus_json_dump (d : to_save) : document :=
  {| doc_instruments := save_instruments d;
     doc_score :=
       map (fun kv : Z * list event => (str_of_int kv.1, map to_json kv.2))
         (save_score d) |}.

(** Modelled from the spec: [mingus_json.load], whose source is missing.
    Events are read through [from_json]; keys stay strings. *)
Definition mingus_json_load (d : document) : outcome loaded :=
  s <~ traverse (fun kv : string * list json =>
                   v' <~ traverse from_json kv.2 ;; Ok (kv.1, v'))
         (doc_score d) ;;
  Ok {| data_instruments := doc_instruments d; data_score := s |}.

(** [Sequencer.save_tracks(path, tracks, channels, bpm)]; returns the
    document written to [path]. *)
Definition save_tracks (tracks : list Track) (channels : list Z)
    (bpm : option py_number) : M Sequencer document :=
  play_Tracks tracks channels bpm ;;;
  items <- lift (fun self => Ok (SortedDict_items (score self))) ;;
  instrs <- lift (fun self => Ok (instruments self)) ;;
  ret (mingus_json_dump {| save_instruments := instrs; save_score := items |}).

(** [{int(k): v for k, v in items}]: a later entry replaces an earlier one
    with the same key. *)
Fixpoint int_keys (items : list (string * list event)) (acc : Score)
    : outcome Score :=
  match items with
  | [] => Ok acc
  | (k, v) :: items' => n <~ int_of_str k ;; int_keys items' (<[n := v]> acc)
  end.

(** [Sequencer.load_tracks(path)], given the document at [path]. *)
Definition load_tracks (d : document) : M Sequencer unit :=
  data <- lift (fun _ => mingus_json_load d) ;;
  modify (fun self =>
    {| score := score self; instruments := data_instruments data |}) ;;;
  s <- lift (fun _ => int_keys (data_score data) ∅) ;;
  modify (fun self => {| score := s; instruments := instruments self |}).

End Persistence.

(** ** Reference notions of the design document *)

(** Decoding a variable-length quantity: 7-bit groups, most significant
    first; the high bit of a byte says that another byte follows.  [None] if
    the bytes are not exactly one quantity. *)
Fixpoint varbyte_decode_from (acc : Z) (bs : bytes) : option Z :=
  match bs with
  | [] => None
  | b :: bs' =>
      let acc' := acc * 128 + Z.land b 0x7F in
      if Z.testbit b 7 then varbyte_decode_from acc' bs'
      else match bs' with [] => Some acc' | _ :: _ => None end
  end.

Definition varbyte_decode (bs : bytes) : option Z := varbyte_decode_from 0 bs.

(** A sequence of groups is minimal when it has no leading zero group,
    unless it is the single group of 0. *)
Definition minimal_groups (bs : bytes) : Prop :=
  match bs with
  | b :: _ :: _ => Z.land b 0x7F <> 0
  | _ => True
  end.

(** The value of the digits [u] read behind the value [acc]. *)
Fixpoint uint_value (acc : Z) (u : Decimal.uint) : Z :=
  match u with
  | Decimal.Nil => acc
  | Decimal.D0 u' => uint_value (acc * 10 + 0) u'
  | Decimal.D1 u' => uint_value (acc * 10 + 1) u'
  | Decimal.D2 u' => uint_value (acc * 10 + 2) u'
  | Decimal.D3 u' => uint_value (acc * 10 + 3) u'
  | Decimal.D4 u' => uint_value (acc * 10 + 4) u'
  | Decimal.D5 u' => uint_value (acc * 10 + 5) u'
  | Decimal.D6 u' => uint_value (acc * 10 + 6) u'
  | Decimal.D7 u' => uint_value (acc * 10 + 7) u'
  | Decimal.D8 u' => uint_value (acc * 10 + 8) u'
  | Decimal.D9 u' => uint_value (acc * 10 + 9) u'
  end.

(** The double that a decimal literal denotes: the nearest to [n / d]. *)
Definition float_literal (n d : Z) : float :=
  match truediv (py_int n) (py_int d) with
  | Ok x => x
  | Raise _ => S754_nan
  end.





(** The 7-bit groups of [value] computed by [int_to_varbyte] for a length
    [n], most significant first, before the high bits are set. *)
Definition groups (n : nat) (value : Z) : list Z :=
  reverse ((fun i => Z.land (Z.shiftr value (i * 7)) 0x7F) <$> seqZ 0 (Z.of_nat n)).

(** [v] written with exactly [n] hexadecimal digits (its [n] lowest ones). *)
Fixpoint hex_fixed (n : nat) (v : Z) : list ascii :=
  match n with
  | O => []
  | S n' => hex_fixed n' (v / 16) ++ [hex_char (v mod 16)]
  end.

(** The three bytes of a channel event after its delta-time: the status
    byte [(event_type << 4) | channel] and two data bytes. *)
Definition channel_event (event_type channel data1 data2 : Z) : bytes :=
  [Z.lor (Z.shiftl event_type 4) channel; data1; data2].

(** A note that the encoder accepts: a channel in [0, 15], a pitch that
    lies in [0, 127] after the shift by 12, a velocity in [0, 127]. *)
Definition encodable `{core_notes} (n : Note) : bool :=
  match Note_channel n, Note_int n with
  | Some c, Ok p =>
      (0 <=? c) && (c <=? 15) && (0 <=? p + 12) && (p + 12 <=? 127)
      && (0 <=? Note_velocity n) && (Note_velocity n <=? 127)
  | _, _ => false
  end.

(** The note-on or note-off event of an encodable note, without its
    delta-time. *)
Definition note_event `{core_notes} (event_type : Z) (n : Note) : bytes :=
  match Note_channel n, Note_int n with
  | Some c, Ok p => channel_event event_type c (p + 12) (Note_velocity n)
  | _, _ => []
  end.

(** The constants name event types that fit the high nibble of a status
    byte. *)
Definition nibbles `{midi_events} : bool :=
  forallb (fun t => (0 <=? t) && (t <? 16))
    [NOTE_OFF; NOTE_ON; CONTROLLER; PROGRAM_CHANGE; BANK_SELECT].

(** The two events that [play_Note] writes ahead of the first note when an
    instrument change is pending: the bank select, as [select_bank] builds
    it, and the program change. *)
Definition instrument_setup `{midi_events} (self : MidiTrack) (channel : Z) : bytes :=
  if change_instrument self then
    (delta_time self ++ channel_event CONTROLLER BANK_SELECT channel 1)
    ++ (delta_time self
        ++ [Z.lor (Z.shiftl PROGRAM_CHANGE 4) channel; instrument self])
  else [].


(** The world after the cancellation predicate has been asked [n] more
    times. *)
Definition add_polls (n : nat) (w : world) : world :=
  {| self_ := self_ w; calls := calls w; polls := (polls w + n)%nat |}.



(** ** More of [mingus/midi/midi_track.py] *)

(** The constants of [mingus.midi.midi_events] that the chunk header and the
    meta events use; [standard_meta_events] is their assignment in the
    Standard MIDI File format. *)
Class midi_meta_events := {
  TRACK_HEADER : bytes;
  TRACK_NAME : bytes;
  TIME_SIGNATURE : bytes;
  KEY_SIGNATURE : bytes
}.

Definition standard_meta_events : midi_meta_events := {|
  TRACK_HEADER := [0x4D; 0x54; 0x72; 0x6B];
  TRACK_NAME := [0x03];
  TIME_SIGNATURE := [0x58];
  KEY_SIGNATURE := [0x59]
|}.

(** [end_of_track()] *)
Definition end_of_track : bytes := [0x00; 0xFF; 0x2F; 0x00].

(** [reset()] *)
Definition reset : M MidiTrack unit :=
  modify (with_track_data []) ;;;
  modify (with_delta_time [0x00]).

(** [header()]: the chunk size is written with ["%08x"] and read back by
    [a2b_hex]. *)
Definition header `{midi_meta_events} (self : MidiTrack) : outcome bytes :=
  chunk_size <~ a2b_hex (format_0x 8
                  (Z.of_nat (length (track_data self))
                   + Z.of_nat (length end_of_track))) ;;
  Ok (TRACK_HEADER ++ chunk_size).

(** [get_midi_data()] *)
Definition get_midi_data `{midi_meta_events} (self : MidiTrack) : outcome bytes :=
  h <~ header self ;;
  Ok (h ++ track_data self ++ end_of_track).

(** The number written by a sequence of bytes, most significant first. *)
Definition big_endian (bs : bytes) : Z :=
  fold_left (fun acc b => acc * 256 + b) bs 0.

(** A computation of the encoder that never takes back or rewrites a byte
    of [track_data], whether it returns or raises. *)
Definition appends_only {A} (m : M MidiTrack A) : Prop :=
  forall self, track_data self `prefix_of` track_data (m self).1.

Definition with_delay (d : Z) (self : MidiTrack) : MidiTrack :=
  {| track_data := track_data self; delta_time := delta_time self; delay := d;
     bpm := bpm self; change_instrument := change_instrument self;
     instrument := instrument self |}.

Definition with_instrument (i : Z) (self : MidiTrack) : MidiTrack :=
  {| track_data := track_data self; delta_time := delta_time self;
     delay := delay self; bpm := bpm self;
     change_instrument := change_instrument self; instrument := i |}.

(** [name.encode("ascii")]: a character above 127 raises
    [UnicodeEncodeError], which is a [ValueError]. *)
Fixpoint encode_ascii (name : string) : outcome bytes :=
  match name with
  | EmptyString => Ok []
  | String c name' =>
      let code := Z.of_N (N_of_ascii c) in
      if code <? 128 then bs <~ encode_ascii name' ;; Ok (code :: bs)
      else Raise ValueError
  end.

(** The two lists of [mingus.core.keys] that [key_signature_event] searches;
    the module is not part of the sources at hand. *)
Class core_keys := {
  major_keys : list string;
  minor_keys : list string
}.

(** The lists from seven flats to seven sharps. *)
Definition standard_keys : core_keys := {|
  major_keys := ["Cb"; "Gb"; "Db"; "Ab"; "Eb"; "Bb"; "F"; "C"; "G"; "D"; "A";
                 "E"; "B"; "F#"; "C#"]%string;
  minor_keys := ["ab"; "eb"; "bb"; "f"; "c"; "g"; "d"; "a"; "e"; "b"; "f#";
                 "c#"; "g#"; "d#"; "a#"]%string
|}.

(** [l.index(x)]: the first position of [x]; [ValueError] if there is
    none. *)
Fixpoint list_index (x : string) (l : list string) : outcome Z :=
  match l with
  | [] => Raise ValueError
  | y :: l' =>
      if String.eqb y x then Ok 0
      else i <~ list_index x l' ;; Ok (i + 1)
  end.

(** Lowercase and uppercase characters among the first 256 code points, as
    [str.islower] and [str.isupper] see them. *)
Definition lower_code (c : Z) : bool :=
  ((97 <=? c) && (c <=? 122)) || (c =? 170) || (c =? 181) || (c =? 186)
  || ((223 <=? c) && (c <=? 246)) || ((248 <=? c) && (c <=? 255)).

Definition upper_code (c : Z) : bool :=
  ((65 <=? c) && (c <=? 90)) || ((192 <=? c) && (c <=? 214))
  || ((216 <=? c) && (c <=? 222)).

Fixpoint codes (s : string) : list Z :=
  match s with
  | EmptyString => []
  | String c s' => Z.of_N (N_of_ascii c) :: codes s'
  end.

(** [s.islower()]: some cased character, and none that is uppercase. *)
Definition islower (s : string) : bool :=
  existsb lower_code (codes s) && negb (existsb upper_code (codes s)).

(** The argument of [set_key]: a string, or a [Key] object, of which only
    [name] is read. *)
Inductive key_argument :=
| key_string (key : string)
| key_object (name : string).

(** A [NoteContainer], as [play_Bar] reads it: its notes and, if it has
    one, its attribute [bpm]. *)
Record NoteContainer := {
  container_notes : list Note;
  container_bpm : option Z
}.

(** A bar, as [play_Bar] reads it: [meter], [key] and the entries
    [[beat, duration, notes]] that iterating over it gives; [notes] may be
    [None]. *)
Record bar_content := {
  meter : Z * Z;
  key : key_argument;
  entries : list (py_number * py_number * option NoteContainer)
}.

(** A track, as [MidiTrack.play_Track] reads it: [name] ([None] unless one
    was given), the [number] of its instrument if the instrument has the
    attribute [instrument_nr], and its bars. *)
Record track_content := {
  content_name : option string;
  content_instrument_number : option Z;
  content_bars : list bar_content
}.

(** [int(round((1.0 / duration) * 288))] *)
Definition ticks (duration : py_number) : outcome Z :=
  q <~ truediv (py_float (nearest_float 1)) duration ;;
  p <~ float_times q (py_int 288) ;;
  float_round p.

Section MidiTrack_meta.
Context `{midi_events} `{midi_meta_events} `{core_keys} `{PyMath} `{core_notes}.

(** [track_name_event(name)]; [len(None)] raises [TypeError]. *)
Definition track_name_event (name : option string) : outcome bytes :=
  match name with
  | None => Raise TypeError
  | Some name =>
      l <~ int_to_varbyte (Z.of_nat (String.length name)) ;;
      text <~ encode_ascii name ;;
      Ok ([0x00] ++ META_EVENT ++ TRACK_NAME ++ l ++ text)
  end.

Definition set_track_name (name : option string) : M MidiTrack unit :=
  append_track_data (fun _ => track_name_event name).

(** [time_signature_event(meter)]; [log] of a number that is not positive
    raises [ValueError]. *)
Definition time_signature_event (meter : Z * Z) (self : MidiTrack) : outcome bytes :=
  numer <~ a2b_hex (format_0x 2 meter.1) ;;
  exponent <~ (if meter.2 <=? 0 then Raise ValueError
               else Ok (int_log meter.2 2)) ;;
  denom <~ a2b_hex (format_0x 2 exponent) ;;
  Ok (delta_time self ++ META_EVENT ++ TIME_SIGNATURE ++ [0x04]
      ++ numer ++ denom ++ [0x18; 0x08]).

Definition set_meter (meter : Z * Z) : M MidiTrack unit :=
  append_track_data (time_signature_event meter).

(** [key_signature_event(key)] *)
Definition key_signature_event (key : string) (self : MidiTrack) : outcome bytes :=
  val_mode <~ (if islower key
               then i <~ list_index key minor_keys ;; Ok (i - 7, [0x01])
               else i <~ list_index key major_keys ;; Ok (i - 7, [0x00])) ;;
  let val := val_mode.1 in
  let mode : bytes := val_mode.2 in
  let val := if val <? 0 then 256 + val else val in
  k <~ a2b_hex (format_0x 2 val) ;;
  Ok (delta_time self ++ META_EVENT ++ KEY_SIGNATURE ++ [0x02] ++ k ++ mode).

(** [set_key(key)]: of a [Key] object the first character of the name is
    used. *)
Definition set_key (key : key_argument) : M MidiTrack unit :=
  k <- lift (fun _ =>
         match key with
         | key_string k => Ok k
         | key_object EmptyString => Raise IndexError
         | key_object (String c _) => Ok (String c EmptyString)
         end) ;;
  append_track_data (key_signature_event k).

(** The body of the loop of [play_Bar]. *)
Definition play_entry (x : py_number * py_number * option NoteContainer) : M MidiTrack unit :=
  tick <- lift (fun _ => ticks x.1.2) ;;
  match x.2 with
  | None => modify (fun self => with_delay (delay self + tick) self)
  | Some nc =>
      match container_notes nc with
      | [] => modify (fun self => with_delay (delay self + tick) self)
      | _ :: _ =>
          d <- lift (fun self => Ok (delay self)) ;;
          set_deltatime d ;;;
          modify (with_delay 0) ;;;
          match container_bpm nc with
          | Some b => set_deltatime 0 ;;; set_tempo b
          | None => ret tt
          end ;;;
          play_NoteContainer (container_notes nc) ;;;
          t <- lift (fun _ => int_to_varbyte tick) ;;
          set_deltatime_bytes t ;;;
          stop_NoteContainer (container_notes nc)
      end
  end.

(** [play_Bar(bar)] *)
Definition play_Bar (bar : bar_content) : M MidiTrack unit :=
  d <- lift (fun self => Ok (delay self)) ;;
  set_deltatime d ;;;
  modify (with_delay 0) ;;;
  set_meter (meter bar) ;;;
  set_deltatime 0 ;;;
  set_key (key bar) ;;;
  for_each play_entry (entries bar).

(** [MidiTrack.play_Track(track)] *)
Definition MidiTrack_play_Track (track : track_content) : M MidiTrack unit :=
  set_track_name (content_name track) ;;;
  modify (with_delay 0) ;;;
  match content_instrument_number track with
  | Some n =>
      modify (with_change_instrument true) ;;;
      modify (with_instrument n)
  | None => ret tt
  end ;;;
  for_each play_Bar (content_bars track).

End MidiTrack_meta.

(** The logarithm without rounding error for a base that is a power of
    two. *)
Definition exact_log : PyMath := {|
  int_log := fun x base => Z.log2 x / Z.log2 base
|}.

(** The events of a group of simultaneous notes: the first behind the
    delta-time [dt], the others behind the delta-time 0. *)
Definition container_events `{core_notes} (event_type : Z) (dt : bytes)
    (first : Note) (others : list Note) : bytes :=
  (dt ++ note_event event_type first)
  ++ concat (map (fun n => [0] ++ note_event event_type n) others).

(** An entry of a bar that sounds nothing: no container, or an empty
    one. *)
Definition is_rest (x : py_number * py_number * option NoteContainer) : bool :=
  match x.2 with
  | None => true
  | Some nc => match container_notes nc with [] => true | _ :: _ => false end
  end.

(** The ticks of a list of entries, added up; an entry without ticks
    counts for nothing. *)
Definition total_ticks (xs : list (py_number * py_number * option NoteContainer)) : Z :=
  fold_right (fun x acc => match ticks x.1.2 with Ok t => t + acc | Raise _ => acc end)
    0 xs.

(** ** More of [mingus/midi/sequencer2.py] *)

(** [Sequencer.play_Composition(composition, channels, bpm)], given the
    tracks of the composition; without channels the tracks get the channels
    1, 2, ... *)
Definition play_Composition (tracks : list Track) (channels : option (list Z))
    (bpm : option py_number) : M Sequencer unit :=
  let channels :=
    match channels with
    | None => (fun x => x + 1) <$> seqZ 0 (Z.of_nat (length tracks))
    | Some cs => cs
    end in
  play_Tracks tracks channels bpm.

(** The instrument assignments that [play_Tracks] makes for tracks and the
    channels beside them: one for every track that has an instrument. *)
Definition assignments (tracks : list Track) (channels : list Z)
    : list (Z * MidiInstrument) :=
  omap (fun tc : Track * Z => (fun i => (tc.2, i)) <$> track_instrument tc.1)
    (zip tracks channels).

(** A computation that leaves the instrument list of the sequencer as it
    found it, whether it returns or raises. *)
Definition keeps_instruments {A} (m : M Sequencer A) : Prop :=
  forall self, instruments (m self).1 = instruments self.



(** ** More of [mingus/containers/track.py] *)

(** [MidiControl(n)]: the member with value [n]; [ValueError] if there is
    none. *)
Definition MidiControl_of_int (n : Z) : outcome MidiControl :=
  if n =? 1 then Ok VIBRATO
  else if n =? 7 then Ok VOLUME
  else if n =? 10 then Ok PAN
  else if n =? 11 then Ok EXPRESSION
  else if n =? 64 then Ok SUSTAIN
  else if n =? 91 then Ok REVERB
  else if n =? 93 then Ok CHORUS
  else Raise ValueError.

(** [ControlChangeEvent.__init__(beat, control, value)]; [control] is an
    [int] or a member of [MidiControl]. *)
Definition ControlChangeEvent_init (beat : py_number) (control : Z + MidiControl)
    (value : Z)
    : outcome ControlChangeEvent.t :=
  c <~ match control with
       | inl n => MidiControl_of_int n
       | inr c => Ok c
       end ;;
  Ok {| ControlChangeEvent.beat := beat;
        ControlChangeEvent.control := c;
        ControlChangeEvent.value := value |}.

(** The three entries that [ControlChangeEvent.to_json] adds to the
    dictionary of its base class: ["beat"], ["control"] and ["value"]. *)
Definition ControlChangeEvent_to_json (self : ControlChangeEvent.t)
    : py_number * Z * Z :=
  (ControlChangeEvent.beat self,
   MidiControl_value (ControlChangeEvent.control self),
   ControlChangeEvent.value self).

(** [Track.add_event(event)] *)
Definition add_event (event : ControlChangeEvent.t) (self : Track) : Track :=
  {| bars := bars self; snippets := snippets self;
     events := events self ++ [event];
     track_bpm := track_bpm self; track_instrument := track_instrument self |}.

(** The [bpm] that the loop over the bars of [Sequencer.play_Track] leaves
    behind: every bar with a [bpm] of its own replaces it. *)
Definition final_bpm (bs : list Bar) (bpm : py_number) : py_number :=
  fold_left (fun b bar => or_bpm (bar_bpm bar) b) bs bpm.


(** ** [mingus/containers/note.py]: the methods of [Note] *)

(** [mingus.core.notes.int_to_note] with its default accidentals, on the
    arguments in [range(12)], the only ones [Note] passes it, and
    [mingus.core.notes.is_valid_note]; their source is missing. *)
Class core_note_names := {
  int_to_note : Z -> string;
  is_valid_note : string -> outcome bool
}.

(** [x in l] for a character [x] and a list [l] of one-character strings. *)
Fixpoint in_chars (x : ascii) (l : string) : bool :=
  match l with
  | EmptyString => false
  | String c l' => Ascii.eqb x c || in_chars x l'
  end.

(** The functions of the library: the twelve names with sharps, and a name
    is valid if it is a letter from C to B followed by sharps and flats. *)
Definition standard_note_names : core_note_names := {|
  int_to_note := fun i =>
    default "C"%string
      (["C"; "C#"; "D"; "D#"; "E"; "F"; "F#"; "G"; "G#"; "A"; "A#"; "B"]%string
         !! Z.to_nat i);
  is_valid_note := fun note =>
    match note with
    | EmptyString => Raise IndexError
    | String c post =>
        Ok (in_chars c "CDEFGAB"
            && forallb (fun p => in_chars p "b#") (list_ascii_of_string post))
    end
|}.

(** The attributes of a [Note] that is not a [PercussionNote]. *)
Record Note_attributes := {
  attr_name : string;
  attr_octave : Z;
  attr_velocity : Z;
  attr_channel : option Z
}.

Definition Note_of (self : Note_attributes) : Note :=
  MkNote (attr_name self) (attr_octave self) (attr_velocity self) (attr_channel self).

Definition with_name (name : string) (self : Note_attributes) : Note_attributes :=
  {| attr_name := name; attr_octave := attr_octave self;
     attr_velocity := attr_velocity self; attr_channel := attr_channel self |}.

Definition with_octave (octave : Z) (self : Note_attributes) : Note_attributes :=
  {| attr_name := attr_name self; attr_octave := octave;
     attr_velocity := attr_velocity self; attr_channel := attr_channel self |}.

Definition with_velocity (velocity : Z) (self : Note_attributes) : Note_attributes :=
  {| attr_name := attr_name self; attr_octave := attr_octave self;
     attr_velocity := velocity; attr_channel := attr_channel self |}.

Definition with_channel (channel : option Z) (self : Note_attributes) : Note_attributes :=
  {| attr_name := attr_name self; attr_octave := attr_octave self;
     attr_velocity := attr_velocity self; attr_channel := channel |}.

(** A [dynamics] dictionary, of which only the keys ["velocity"] and
    ["channel"] are read: [None] for a missing key.  The value under
    ["channel"] may itself be [None]. *)
Record dynamics_dict := {
  dynamics_velocity : option Z;
  dynamics_channel : option (option Z)
}.

(** [{}] *)
Definition empty_dynamics : dynamics_dict :=
  {| dynamics_velocity := None; dynamics_channel := None |}.

(** The property [Note.dynamics]. *)
Definition Note_dynamics (self : Note_attributes) : dynamics_dict :=
  {| dynamics_velocity := Some (attr_velocity self);
     dynamics_channel := Some (attr_channel self) |}.

(** [Note.set_channel(channel)] *)
Definition set_channel (channel : option Z) : M Note_attributes unit :=
  c <- lift (fun _ => int_operand channel) ;;
  if (0 <=? c) && (c <? 16) then modify (with_channel (Some c))
  else raise ValueError.

(** [Note.set_velocity(velocity)] *)
Definition set_velocity (velocity : Z) : M Note_attributes unit :=
  if (0 <=? velocity) && (velocity <? 128) then modify (with_velocity velocity)
  else raise ValueError.

(** [s.split(sep)] for a one-character separator. *)
Fixpoint split_on (sep : ascii) (s : string) : list string :=
  match s with
  | EmptyString => [EmptyString]
  | String c s' =>
      if Ascii.eqb c sep then EmptyString :: split_on sep s'
      else match split_on sep s' with
           | part :: parts => String c part :: parts
           | [] => [String c EmptyString]
           end
  end.

(** [Note.set_note(name, octave, dynamics, velocity, channel)] *)
Definition set_note `{core_note_names} (name : string) (octave : Z)
    (dynamics : option dynamics_dict) (velocity : option Z) (channel : option Z)
    : M Note_attributes unit :=
  let dynamics := default empty_dynamics dynamics in
  match velocity, dynamics_velocity dynamics with
  | Some v, _ => set_velocity v
  | None, Some v => set_velocity v
  | None, None => ret tt
  end ;;;
  match channel with
  | Some c => set_channel (Some c)
  | None => ret tt
  end ;;;
  match dynamics_channel dynamics with
  | Some c => set_channel c
  | None => ret tt
  end ;;;
  match split_on "-" name with
  | [_] =>
      valid <- lift (fun _ => is_valid_note name) ;;
      if valid : bool then
        modify (with_name name) ;;; modify (with_octave octave)
      else raise NoteFormatError
  | [note; octave'] =>
      valid <- lift (fun _ => is_valid_note note) ;;
      if valid : bool then
        modify (with_name note) ;;;
        o <- lift (fun _ => int_of_str octave') ;;
        modify (with_octave o)
      else raise NoteFormatError
  | _ => raise NoteFormatError
  end.

(** [Note.change_octave(diff)] *)
Definition change_octave (diff : Z) : M Note_attributes unit :=
  modify (fun self =>
    let self := with_octave (attr_octave self + diff) self in
    if attr_octave self <? 0 then with_octave 0 self else self).

Definition octave_up : M Note_attributes unit := change_octave 1.

Definition octave_down : M Note_attributes unit := change_octave (-1).

(** [Note.from_int(integer)]; [%] and [//] round down. *)
Definition from_int `{core_note_names} (integer : Z) : M Note_attributes unit :=
  modify (with_name (int_to_note (integer mod 12))) ;;;
  modify (with_octave (integer / 12)).

(** [str.lower] on a string of characters below U+0100: the capital
    letters, A to Z and those with the codes that [upper_code] lists, move
    up by 32. *)
Definition lower_char (c : ascii) : ascii :=
  if upper_code (Z.of_N (N_of_ascii c)) then ascii_of_N (N_of_ascii c + 32) else c.

Fixpoint str_lower (s : string) : string :=
  match s with
  | EmptyString => EmptyString
  | String c s' => String (lower_char c) (str_lower s')
  end.

(** [str.upper(x)] for one of the letters a to g, where [from_shorthand]
    calls it. *)
Definition upper_letter (x : ascii) : ascii := ascii_of_N (N_of_ascii x - 32).

(** [while o < -1: res += ","; o += 1], which takes [-1 - o] rounds. *)
Fixpoint commas_loop (rounds : nat) (res : string) (o : Z) : string * Z :=
  match rounds with
  | O => (res, o)
  | S rounds' =>
      if o <? -1 then commas_loop rounds' (res ++ ",") (o + 1) else (res, o)
  end.

(** [while o > 0: res += "'"; o -= 1], which takes [o] rounds. *)
Fixpoint quotes_loop (rounds : nat) (res : string) (o : Z) : string * Z :=
  match rounds with
  | O => (res, o)
  | S rounds' =>
      if 0 <? o then quotes_loop rounds' (res ++ "'") (o - 1) else (res, o)
  end.

(** [Note.to_shorthand()] *)
Definition to_shorthand (self : Note_attributes) : string :=
  let res := if attr_octave self <? 3 then attr_name self
             else str_lower (attr_name self) in
  let o := attr_octave self - 3 in
  let '(res, o) := commas_loop (Z.to_nat (-1 - o)) res o in
  let '(res, o) := quotes_loop (Z.to_nat o) res o in
  res.

(** The loop of [Note.from_shorthand] over the characters of [shorthand]. *)
Fixpoint from_shorthand_loop (shorthand : string) (name : string) (octave : Z)
    : string * Z :=
  match shorthand with
  | EmptyString => (name, octave)
  | String x rest =>
      if in_chars x "abcdefg" then
        from_shorthand_loop rest (String (upper_letter x) EmptyString) 3
      else if in_chars x "ABCDEFG" then
        from_shorthand_loop rest (String x EmptyString) 2
      else if in_chars x "#b" then
        from_shorthand_loop rest (name ++ String x EmptyString) octave
      else if Ascii.eqb x "," then
        from_shorthand_loop rest name (octave - 1)
      else if Ascii.eqb x "'" then
        from_shorthand_loop rest name (octave + 1)
      else from_shorthand_loop rest name octave
  end.

(** [Note.from_shorthand(shorthand)] *)
Definition from_shorthand `{core_note_names} (shorthand : string)
    : M Note_attributes unit :=
  let '(name, octave) := from_shorthand_loop shorthand EmptyString 0 in
  set_note name octave (Some empty_dynamics) None None.

(** The argument [name] of [Note.__init__]: a string, a [Note] to copy, an
    [int], or anything else. *)
Inductive name_argument :=
| name_str (name : string)
| name_Note (other : Note_attributes)
| name_int (integer : Z)
| name_other.

(** [Note(name, octave, dynamics, velocity, channel)].  [name] and [octave]
    do not exist until [set_note] or [from_int] writes them; the values
    they start with here are never read. *)
Definition Note_init `{core_note_names} (name : name_argument) (octave : Z)
    (dynamics : option dynamics_dict) (velocity : Z) (channel : option Z)
    : outcome Note :=
  let self := {| attr_name := EmptyString; attr_octave := 0;
                 attr_velocity := velocity; attr_channel := channel |} in
  let dynamics := default empty_dynamics dynamics in
  let dynamics :=
    {| dynamics_velocity := Some velocity;
       dynamics_channel := match channel with
                           | Some c => Some (Some c)
                           | None => dynamics_channel dynamics
                           end |} in
  let '(self, result) :=
    match name with
    | name_str name => set_note name octave (Some dynamics) None None self
    | name_Note other =>
        set_note (attr_name other) (attr_octave other)
          (Some (Note_dynamics other)) None None self
    | name_int integer => from_int integer self
    | name_other => raise NoteFormatError self
    end in
  _ <~ result ;; Ok (Note_of self).

(** [int_to_note] and [note_to_int] agree: the name of [i] is a note of
    pitch [i] in octave 0. *)
Definition names_agree `{core_notes} `{core_note_names} : Prop :=
  forall i, 0 <= i < 12 -> Note_int (MkNote (int_to_note i) 0 64 None) = Ok i.


(** * Properties *)

(** ** Variable-length quantities *)

Lemma land_0x7F (x : Z) : Z.land x 0x7F = x mod 128.
Proof. exact (Z.land_ones x 7 ltac:(lia)). Qed.

Lemma group_range (x : Z) : 0 <= Z.land x 0x7F < 128.
Proof. rewrite land_0x7F. apply Z.mod_pos_bound. lia. Qed.

Lemma lor_0x80 (b : Z) : 0 <= b < 128 -> Z.lor b 0x80 = b + 128.
Proof.
  intros Hb. rewrite <- Z.add_nocarry_lor; [reflexivity|].
  apply Z.bits_inj'. intros n Hn. rewrite Z.land_spec, Z.bits_0.
  destruct (Z.eq_dec n 7) as [->|Hne].
  - replace b with (b mod 2 ^ 7) by (apply Z.mod_small; lia).
    rewrite Z.mod_pow2_bits_high by lia. reflexivity.
  - replace 128 with (2 ^ 7) by reflexivity.
    rewrite Z.pow2_bits_false by lia. apply andb_false_r.
Qed.

Lemma testbit_7_low (b : Z) : 0 <= b < 128 -> Z.testbit b 7 = false.
Proof.
  intros Hb. replace b with (b mod 2 ^ 7) by (apply Z.mod_small; lia).
  apply Z.mod_pow2_bits_high. lia.
Qed.

Lemma testbit_7_high (b : Z) : 0 <= b < 128 -> Z.testbit (b + 128) 7 = true.
Proof.
  intros Hb. rewrite <- lor_0x80 by assumption.
  rewrite Z.lor_spec. replace 128 with (2 ^ 7) by reflexivity.
  rewrite Z.pow2_bits_true by lia. apply orb_true_r.
Qed.

Lemma groups_S (n : nat) (v : Z) :
  groups (S n) v = Z.land (Z.shiftr v (Z.of_nat n * 7)) 0x7F :: groups n v.
Proof.
  unfold groups. rewrite seqZ_S, fmap_app, reverse_app. reflexivity.
Qed.

Lemma length_groups (n : nat) (v : Z) : length (groups n v) = n.
Proof.
  unfold groups. rewrite length_reverse, length_fmap, length_seqZ. lia.
Qed.

Lemma shiftr_group (v : Z) (n : nat) :
  Z.land (Z.shiftr v (Z.of_nat n * 7)) 0x7F = (v / 128 ^ Z.of_nat n) mod 128.
Proof.
  rewrite land_0x7F, Z.shiftr_div_pow2 by lia.
  replace (2 ^ (Z.of_nat n * 7)) with (128 ^ Z.of_nat n); [reflexivity|].
  rewrite Z.mul_comm, Z.pow_mul_r by lia. reflexivity.
Qed.

Lemma set_continuation_bytes (l : list Z) :
  Forall (fun b => 0 <= b < 128) l ->
  forallb is_byte (set_continuation l) = true.
Proof.
  induction 1 as [|b l Hb Hl IH]; [reflexivity|].
  destruct l as [|b' l'].
  - simpl. unfold is_byte. rewrite andb_true_r.
    apply andb_true_intro. split; [apply Z.leb_le | apply Z.ltb_lt]; lia.
  - change (set_continuation (b :: b' :: l'))
      with (Z.lor b 0x80 :: set_continuation (b' :: l')).
    rewrite lor_0x80 by assumption. cbn [forallb]. rewrite IH, andb_true_r.
    unfold is_byte.
    apply andb_true_intro. split; [apply Z.leb_le | apply Z.ltb_lt]; lia.
Qed.

Lemma groups_range (n : nat) (v : Z) : Forall (fun b => 0 <= b < 128) (groups n v).
Proof.
  induction n as [|n IH]; [constructor|].
  rewrite groups_S. constructor; [apply group_range | exact IH].
Qed.

(** Decoding the groups of [v] for a length [n >= 1] gives the [7 n] low
    bits of [v]. *)
Lemma decode_groups (n : nat) (v acc : Z) :
  varbyte_decode_from acc (set_continuation (groups (S n) v))
  = Some (acc * 128 ^ Z.of_nat (S n) + v mod 128 ^ Z.of_nat (S n)).
Proof.
  revert acc. induction n as [|n IH]; intros acc.
  - rewrite groups_S. change (groups 0 v) with (@nil Z).
    cbn [set_continuation varbyte_decode_from].
    rewrite testbit_7_low by apply group_range.
    f_equal. rewrite !land_0x7F.
    rewrite Z.mod_mod by lia.
    change (Z.of_nat 0 * 7) with 0. rewrite Z.shiftr_0_r.
    change (128 ^ Z.of_nat 1) with 128. lia.
  - rewrite groups_S.
    destruct (groups (S n) v) as [|b' l'] eqn:E.
    { apply (f_equal length) in E. rewrite length_groups in E. discriminate. }
    rewrite shiftr_group.
    set (P := 128 ^ Z.of_nat (S n)).
    set (b := (v / P) mod 128).
    assert (HP : 0 < P) by (apply Z.pow_pos_nonneg; lia).
    assert (Hb : 0 <= b < 128) by (apply Z.mod_pos_bound; lia).
    change (set_continuation (b :: b' :: l'))
      with (Z.lor b 0x80 :: set_continuation (b' :: l')).
    rewrite lor_0x80 by exact Hb.
    cbn [varbyte_decode_from].
    rewrite testbit_7_high by exact Hb.
    rewrite IH. f_equal. fold P.
    assert (Hlow : Z.land (b + 128) 127 = b).
    { rewrite land_0x7F.
      replace (b + 128) with (b + 1 * 128) by lia.
      rewrite Z.mod_add by lia. apply Z.mod_small. exact Hb. }
    rewrite Hlow.
    replace (128 ^ Z.of_nat (S (S n))) with (P * 128)
      by (unfold P; rewrite (Nat2Z.inj_succ (S n)), Z.pow_succ_r by lia; lia).
    rewrite (Z.rem_mul_r v P 128) by lia.
    fold b. lia.
Qed.

Section VarByte.
Context `{PyMath}.

(** With a length of [n] groups, [int_to_varbyte] returns the groups with
    their continuation bits; [pack] never fails. *)
Lemma int_to_varbyte_groups (value : Z) (n : nat) :
  int_log (Z.max value 1) 0x80 + 1 = Z.of_nat n ->
  int_to_varbyte value = Ok (set_continuation (groups n value)).
Proof.
  intros Hn. unfold int_to_varbyte. rewrite Hn. fold (groups n value).
  unfold pack_B. rewrite set_continuation_bytes by apply groups_range.
  reflexivity.
Qed.

(** [int_to_varbyte(0)] is the single byte 0 as soon as the logarithm of 1
    is computed as 0. *)
Lemma int_to_varbyte_0 : int_log 1 0x80 = 0 -> int_to_varbyte 0 = Ok [0].
Proof.
  intros H0. rewrite (int_to_varbyte_groups 0 1); [reflexivity|].
  change (Z.max 0 1) with 1. rewrite H0. reflexivity.
Qed.

(** The three byte strings that the design document singles out, given
    what the logarithm is computed to be at 1, 127 and 128. *)
Lemma int_to_varbyte_examples :
  int_log 1 0x80 = 0 -> int_log 127 0x80 = 0 -> int_log 128 0x80 = 1 ->
  int_to_varbyte 0 = Ok [0x00]
  /\ int_to_varbyte 127 = Ok [0x7F]
  /\ int_to_varbyte 128 = Ok [0x81; 0x00].
Proof.
  intros H1 H127 H128. split; [|split].
  - apply int_to_varbyte_0. exact H1.
  - rewrite (int_to_varbyte_groups 127 1); [reflexivity|].
    change (Z.max 127 1) with 127. rewrite H127. reflexivity.
  - rewrite (int_to_varbyte_groups 128 2); [reflexivity|].
    change (Z.max 128 1) with 128. rewrite H128. reflexivity.
Qed.

(** Whenever the computed logarithm is not too small, decoding the result
    gives the value back. *)
Lemma int_to_varbyte_decode (t : Z) :
  0 <= t ->
  0 <= int_log (Z.max t 1) 0x80 ->
  t < 128 ^ (int_log (Z.max t 1) 0x80 + 1) ->
  exists bs, int_to_varbyte t = Ok bs /\ varbyte_decode bs = Some t.
Proof.
  intros Ht HL Hlt.
  set (L := int_log (Z.max t 1) 0x80) in *.
  assert (Hn : L + 1 = Z.of_nat (S (Z.to_nat L))) by lia.
  exists (set_continuation (groups (S (Z.to_nat L)) t)). split.
  - apply int_to_varbyte_groups. exact Hn.
  - unfold varbyte_decode. rewrite decode_groups, <- Hn.
    rewrite Z.mod_small by lia. f_equal; lia.
Qed.

(** Whenever the computed logarithm is exact, the result is moreover the
    minimal sequence of groups. *)
Lemma int_to_varbyte_minimal (t : Z) :
  0 <= t ->
  128 ^ int_log (Z.max t 1) 0x80 <= Z.max t 1 < 128 ^ (int_log (Z.max t 1) 0x80 + 1) ->
  0 <= int_log (Z.max t 1) 0x80 ->
  exists bs, int_to_varbyte t = Ok bs /\ minimal_groups bs.
Proof.
  intros Ht [Hge Hlt] HL.
  set (L := int_log (Z.max t 1) 0x80) in *.
  assert (Hn : L + 1 = Z.of_nat (S (Z.to_nat L))) by lia.
  exists (set_continuation (groups (S (Z.to_nat L)) t)). split.
  - apply int_to_varbyte_groups. exact Hn.
  - rewrite groups_S.
    destruct (groups (Z.to_nat L) t) as [|b' l'] eqn:E; [exact I|].
    assert (HLpos : 0 < L).
    { apply (f_equal length) in E. rewrite length_groups in E.
      simpl in E. lia. }
    rewrite shiftr_group, Z2Nat.id by lia.
    set (b := (t / 128 ^ L) mod 128).
    assert (Hb : 0 <= b < 128) by (apply Z.mod_pos_bound; lia).
    change (set_continuation (b :: b' :: l'))
      with (Z.lor b 0x80 :: set_continuation (b' :: l')).
    unfold minimal_groups.
    destruct (set_continuation (b' :: l')) as [|x xs] eqn:E';
      [destruct l'; discriminate|].
    rewrite lor_0x80, land_0x7F by exact Hb.
    replace (b + 128) with (b + 1 * 128) by lia.
    rewrite Z.mod_add, (Z.mod_small b) by lia.
    assert (HP : 0 < 128 ^ L) by (apply Z.pow_pos_nonneg; lia).
    assert (H1 : 1 < 128 ^ L).
    { replace L with (Z.succ (L - 1)) by lia. rewrite Z.pow_succ_r by lia.
      assert (0 < 128 ^ (L - 1)) by (apply Z.pow_pos_nonneg; lia). lia. }
    assert (Ht' : 128 ^ L <= t < 128 ^ L * 128).
    { rewrite Z.pow_add_r in Hlt by lia. change (128 ^ 1) with 128 in Hlt. lia. }
    assert (Hq : 1 <= t / 128 ^ L < 128).
    { split.
      - apply Z.div_le_lower_bound; lia.
      - apply Z.div_lt_upper_bound; lia. }
    unfold b. rewrite Z.mod_small by lia. lia.
Qed.

(** C1 (evaluated where the code departs from it).  When the platform
    computes [int(log(562949953421311, 0x80))] as [7], as double precision
    does for [128 ^ 7 - 1], [int_to_varbyte(562949953421311)] is made of
    eight groups, the first of which is empty: the bytes still decode to
    the tick count, but they are not its minimal sequence of groups. *)
Theorem int_to_varbyte_leading_zero_group :
  int_log 562949953421311 0x80 = 7 ->
  int_to_varbyte 562949953421311
  = Ok [0x80; 0xFF; 0xFF; 0xFF; 0xFF; 0xFF; 0xFF; 0x7F]
  /\ varbyte_decode [0x80; 0xFF; 0xFF; 0xFF; 0xFF; 0xFF; 0xFF; 0x7F]
     = Some 562949953421311
  /\ ~ minimal_groups [0x80; 0xFF; 0xFF; 0xFF; 0xFF; 0xFF; 0xFF; 0x7F].
Proof.
  intros H7. split; [|split].
  - rewrite (int_to_varbyte_groups _ 8); [reflexivity|].
    change (Z.max 562949953421311 1) with 562949953421311. rewrite H7.
    reflexivity.
  - reflexivity.
  - intros Hmin. apply Hmin. reflexivity.
Qed.

End VarByte.

Lemma exact_log128_spec (x : Z) :
  1 <= x ->
  0 <= Z.log2 x / 7 /\ 128 ^ (Z.log2 x / 7) <= x < 128 ^ (Z.log2 x / 7 + 1).
Proof.
  intros Hx.
  destruct (Z.log2_spec x ltac:(lia)) as [Hlo Hhi].
  assert (H0 : 0 <= Z.log2 x) by apply Z.log2_nonneg.
  set (l := Z.log2 x) in *. set (q := l / 7).
  assert (Hq : 7 * q <= l < 7 * q + 7).
  { unfold q. pose proof (Z.div_mod l 7 ltac:(lia)).
    pose proof (Z.mod_pos_bound l 7 ltac:(lia)). lia. }
  assert (Hq0 : 0 <= q) by (apply Z.div_pos; lia).
  replace (128 ^ q) with (2 ^ (7 * q))
    by (rewrite Z.pow_mul_r by lia; reflexivity).
  replace (128 ^ (q + 1)) with (2 ^ (7 * q + 7))
    by (replace (7 * q + 7) with (7 * (q + 1)) by lia;
        rewrite Z.pow_mul_r by lia; reflexivity).
  split; [exact Hq0|]. split.
  - etransitivity; [|exact Hlo]. apply Z.pow_le_mono_r; lia.
  - eapply Z.lt_le_trans; [exact Hhi|]. apply Z.pow_le_mono_r; lia.
Qed.

(** With the logarithm computed without rounding error, every tick count
    is encoded by its minimal sequence of groups and decodes to itself. *)
Lemma exact_int_to_varbyte (t : Z) :
  0 <= t ->
  exists bs, @int_to_varbyte exact_log128 t = Ok bs
             /\ varbyte_decode bs = Some t /\ minimal_groups bs.
Proof.
  intros Ht.
  destruct (exact_log128_spec (Z.max t 1) ltac:(lia)) as (H0 & Hge & Hlt).
  destruct (@int_to_varbyte_decode exact_log128 t Ht) as (bs & Hbs & Hdec).
  { exact H0. }
  { cbn [int_log exact_log128]. lia. }
  destruct (@int_to_varbyte_minimal exact_log128 t Ht) as (bs' & Hbs' & Hmin).
  { cbn [int_log exact_log128]. lia. }
  { exact H0. }
  exists bs. rewrite Hbs in Hbs'. injection Hbs' as <-. auto.
Qed.

(** ** The tempo event *)

Lemma hex_val_hex_char (d : Z) : 0 <= d < 16 -> hex_val (hex_char d) = Some d.
Proof.
  intros Hd.
  assert (Hcases : d = 0 \/ d = 1 \/ d = 2 \/ d = 3 \/ d = 4 \/ d = 5 \/ d = 6
    \/ d = 7 \/ d = 8 \/ d = 9 \/ d = 10 \/ d = 11 \/ d = 12 \/ d = 13
    \/ d = 14 \/ d = 15) by lia.
  repeat (destruct Hcases as [-> | Hcases]; [reflexivity|]).
  subst d. reflexivity.
Qed.

Lemma length_hex_fixed (n : nat) (v : Z) : length (hex_fixed n v) = n.
Proof.
  revert v. induction n as [|n IH]; intros v; [reflexivity|].
  cbn [hex_fixed]. rewrite length_app, IH. simpl. lia.
Qed.

Lemma hex_fixed_0 (n : nat) : hex_fixed n 0 = replicate n "0"%char.
Proof.
  induction n as [|n IH]; [reflexivity|].
  cbn [hex_fixed]. change (0 / 16) with 0. rewrite IH.
  change (hex_char (0 mod 16)) with "0"%char.
  rewrite <- replicate_cons_app. reflexivity.
Qed.

(** Zeros in front of the digits of [v] are more digits of [v]. *)
Lemma hex_fixed_pad (d n : nat) (v : Z) :
  0 <= v < 16 ^ Z.of_nat d ->
  replicate n "0"%char ++ hex_fixed d v = hex_fixed (n + d) v.
Proof.
  revert v. induction d as [|d IH]; intros v Hv.
  - change (16 ^ Z.of_nat 0) with 1 in Hv. replace v with 0 by lia.
    rewrite Nat.add_0_r, (hex_fixed_0 n). apply app_nil_r.
  - rewrite Nat.add_succ_r. cbn [hex_fixed].
    rewrite app_assoc, IH; [reflexivity|].
    rewrite Nat2Z.inj_succ, Z.pow_succ_r in Hv by lia.
    split; [apply Z.div_pos; lia | apply Z.div_lt_upper_bound; lia].
Qed.

(** The loop of [hex_digits] stops after the last non-zero digit. *)
Lemma hex_digits_fixed (fuel : nat) (v : Z) (acc : list ascii) :
  0 <= v < 16 ^ Z.of_nat (S fuel) ->
  exists d : nat,
    (1 <= d <= S fuel)%nat
    /\ (d = 1%nat \/ 16 ^ Z.of_nat (d - 1) <= v)
    /\ v < 16 ^ Z.of_nat d
    /\ hex_digits (S fuel) v acc = hex_fixed d v ++ acc.
Proof.
  revert v acc. induction fuel as [|fuel IH]; intros v acc Hv.
  - exists 1%nat. change (16 ^ Z.of_nat 1) with 16 in Hv.
    split; [lia|]. split; [left; reflexivity|]. split; [lia|].
    cbn [hex_digits hex_fixed]. destruct (v <? 16); reflexivity.
  - cbn [hex_digits]. destruct (Z.ltb_spec v 16) as [Hlt|Hge].
    + exists 1%nat. split; [lia|]. split; [left; reflexivity|].
      split; [exact Hlt | reflexivity].
    + rewrite (Nat2Z.inj_succ (S fuel)), Z.pow_succ_r in Hv by lia.
      destruct (IH (v / 16) (hex_char (v mod 16) :: acc)) as (d & Hd & Hmin & Hmax & Heq).
      { split; [apply Z.div_pos; lia | apply Z.div_lt_upper_bound; lia]. }
      exists (S d). split; [lia|]. split; [|split].
      * right. replace (S d - 1)%nat with (S (d - 1)) by lia.
        rewrite Nat2Z.inj_succ, Z.pow_succ_r by lia.
        pose proof (Z.div_mod v 16 ltac:(lia)).
        pose proof (Z.mod_pos_bound v 16 ltac:(lia)).
        destruct Hmin as [-> | Hmin].
        -- change (16 ^ Z.of_nat (1 - 1)) with 1. lia.
        -- lia.
      * rewrite Nat2Z.inj_succ, Z.pow_succ_r by lia.
        pose proof (Z.div_mod v 16 ltac:(lia)).
        pose proof (Z.mod_pos_bound v 16 ltac:(lia)). lia.
      * change (hex_digits (S fuel) (v / 16) (hex_char (v mod 16) :: acc)
                = hex_fixed (S d) v ++ acc).
        rewrite Heq. cbn [hex_fixed]. rewrite <- app_assoc. reflexivity.
Qed.

Lemma format_x_fixed (v : Z) :
  0 <= v ->
  exists d : nat,
    (d = 1%nat \/ 16 ^ Z.of_nat (d - 1) <= v) /\ v < 16 ^ Z.of_nat d
    /\ format_x v = hex_fixed d v.
Proof.
  intros Hv. unfold format_x.
  destruct (hex_digits_fixed (Z.to_nat (Z.log2 v)) v [])
    as (d & Hd & Hmin & Hmax & Heq).
  - split; [exact Hv|].
    destruct (Z.eq_dec v 0) as [->|Hne].
    + reflexivity.
    + destruct (Z.log2_spec v ltac:(lia)) as [_ Hhi].
      pose proof (Z.log2_nonneg v).
      rewrite Nat2Z.inj_succ, Z2Nat.id by lia.
      eapply Z.lt_le_trans; [exact Hhi|].
      apply Z.pow_le_mono_l. lia.
  - exists d. rewrite app_nil_r in Heq. auto.
Qed.

(** ["%06x" % v] has exactly six digits when [v] fits in three bytes. *)
Lemma format_06x_fixed (v : Z) :
  0 <= v < 16 ^ 6 -> format_0x 6 v = hex_fixed 6 v.
Proof.
  intros Hv. unfold format_0x.
  destruct (Z.ltb_spec v 0) as [?|_]; [lia|].
  rewrite Z.abs_eq by lia.
  destruct (format_x_fixed v ltac:(lia)) as (d & Hmin & Hmax & ->).
  rewrite length_hex_fixed. cbn [length app].
  assert (Hd6 : (d <= 6)%nat).
  { destruct Hmin as [-> | Hmin]; [lia|].
    destruct (Nat.le_gt_cases d 6) as [?|Hgt]; [assumption|exfalso].
    assert (16 ^ 6 <= 16 ^ Z.of_nat (d - 1)) by (apply Z.pow_le_mono_r; lia).
    lia. }
  rewrite hex_fixed_pad by lia.
  replace (6 - 0 - d + d)%nat with 6%nat by lia. reflexivity.
Qed.

(** ... and seven or more when it does not. *)
Lemma format_06x_long (v : Z) :
  16 ^ 6 <= v -> exists d : nat, (7 <= d)%nat /\ format_0x 6 v = hex_fixed d v.
Proof.
  intros Hv. unfold format_0x.
  destruct (Z.ltb_spec v 0) as [?|_]; [lia|].
  rewrite Z.abs_eq by lia.
  destruct (format_x_fixed v ltac:(lia)) as (d & Hmin & Hmax & ->).
  rewrite length_hex_fixed. cbn [length app].
  assert (Hd7 : (7 <= d)%nat).
  { destruct (Nat.le_gt_cases 7 d) as [?|Hlt]; [assumption|exfalso].
    assert (16 ^ Z.of_nat d <= 16 ^ 6) by (apply Z.pow_le_mono_r; lia).
    lia. }
  exists d. split; [exact Hd7|].
  replace (6 - 0 - d)%nat with 0%nat by lia. reflexivity.
Qed.

(** [a2b_hex] reads six digits back as three bytes, most significant
    first. *)
Lemma a2b_hex_fixed_6 (v : Z) :
  0 <= v < 16 ^ 6 ->
  a2b_hex (hex_fixed 6 v) = Ok [v / 65536; v / 256 mod 256; v mod 256].
Proof.
  intros Hv. change (16 ^ 6) with 16777216 in Hv.
  unfold a2b_hex. rewrite length_hex_fixed. cbn [Nat.even].
  cbn [hex_fixed app a2b_hex_pairs].
  rewrite !hex_val_hex_char by (apply Z.mod_pos_bound; lia).
  cbn [outcome_bind]. 
  repeat f_equal.
  all: Z.div_mod_to_equations; lia.
Qed.

Section Tempo.
Context `{midi_events}.

(** C2 (amended).  For every integer [bpm >= 4], [set_tempo_event(bpm)]
    is the current delta-time, the meta-event prefix, the tempo type
    byte, the length 3 and three bytes that are [60000000 // bpm] written
    most significant byte first. *)
Theorem set_tempo_event_payload (bpm : Z) (self : MidiTrack) :
  4 <= bpm ->
  exists b2 b1 b0 : Z,
    set_tempo_event bpm self
    = Ok (delta_time self ++ META_EVENT ++ SET_TEMPO ++ [0x03] ++ [b2; b1; b0])
    /\ forallb is_byte [b2; b1; b0] = true
    /\ b2 * 65536 + b1 * 256 + b0 = 60000000 / bpm.
Proof.
  intros Hbpm.
  set (q := 60000000 / bpm).
  assert (Hq : 0 <= q < 16 ^ 6).
  { unfold q. split.
    - apply Z.div_pos; lia.
    - apply Z.div_lt_upper_bound; [lia|]. change (16 ^ 6) with 16777216. lia. }
  exists (q / 65536), (q / 256 mod 256), (q mod 256).
  split; [|split].
  - unfold set_tempo_event.
    destruct (Z.eqb_spec bpm 0) as [?|_]; [lia|].
    fold q. rewrite format_06x_fixed, a2b_hex_fixed_6 by exact Hq.
    reflexivity.
  - change (16 ^ 6) with 16777216 in Hq.
    unfold is_byte. cbn [forallb]. rewrite !andb_true_iff, !Z.leb_le, !Z.ltb_lt.
    repeat split; try exact I; Z.div_mod_to_equations; lia.
  - change (16 ^ 6) with 16777216 in Hq. Z.div_mod_to_equations. lia.
Qed.

(** For 120 beats per minute the payload is [07 A1 20]. *)
Lemma set_tempo_event_120 (self : MidiTrack) :
  set_tempo_event 120 self
  = Ok (delta_time self ++ META_EVENT ++ SET_TEMPO ++ [0x03] ++ [0x07; 0xA1; 0x20]).
Proof. reflexivity. Qed.

(** Below 4 beats per minute the quotient has seven hexadecimal digits,
    which [a2b_hex] refuses. *)
Lemma set_tempo_event_slow (bpm : Z) (self : MidiTrack) :
  1 <= bpm <= 3 -> set_tempo_event bpm self = Raise binascii_Error.
Proof.
  intros Hbpm.
  assert (Hcases : bpm = 1 \/ bpm = 2 \/ bpm = 3) by lia.
  destruct Hcases as [-> | [-> | ->]]; reflexivity.
Qed.

End Tempo.

(** C2 (as stated) fails at [bpm = 1]: [60000000] does not fit in three
    bytes, and [set_tempo_event(1)] returns no event at all. *)
Lemma set_tempo_event_bpm_1 :
  ~ exists event : bytes,
      @set_tempo_event standard_midi_events 1 MidiTrack_attributes = Ok event.
Proof.
  intros [event Hev].
  rewrite (@set_tempo_event_slow standard_midi_events 1) in Hev by lia.
  discriminate Hev.
Qed.

Lemma set_tempo_event_payload_witness :
  4 <= 120 /\
  exists b2 b1 b0 : Z,
    @set_tempo_event standard_midi_events 120 MidiTrack_attributes
    = Ok (delta_time MidiTrack_attributes ++ [0xFF] ++ [0x51] ++ [0x03] ++ [b2; b1; b0])
    /\ forallb is_byte [b2; b1; b0] = true
    /\ b2 * 65536 + b1 * 256 + b0 = 60000000 / 120.
Proof.
  split; [lia|].
  apply (@set_tempo_event_payload standard_midi_events 120 MidiTrack_attributes).
  lia.
Defined.

(** ** Channel events *)

Lemma bind_Ok {S A B} (m : M S A) (f : A -> M S B) (s s' : S) (a : A) :
  m s = (s', Ok a) -> bind m f s = f a s'.
Proof. intros Hm. unfold bind. rewrite Hm. reflexivity. Qed.

Lemma bind_Raise {S A B} (m : M S A) (f : A -> M S B) (s s' : S) (e : exn) :
  m s = (s', Raise e) -> bind m f s = (s', Raise e).
Proof. intros Hm. unfold bind. rewrite Hm. reflexivity. Qed.

Lemma append_track_data_Ok (f : MidiTrack -> outcome bytes) (self : MidiTrack) (bs : bytes) :
  f self = Ok bs ->
  append_track_data f self = (with_track_data (track_data self ++ bs) self, Ok tt).
Proof. intros Hf. unfold append_track_data, bind, lift, modify. rewrite Hf. reflexivity. Qed.

Lemma append_track_data_Raise (f : MidiTrack -> outcome bytes) (self : MidiTrack) (e : exn) :
  f self = Raise e -> append_track_data f self = (self, Raise e).
Proof. intros Hf. unfold append_track_data, bind, lift. rewrite Hf. reflexivity. Qed.

Lemma assert_true (c : bool) : c = true -> assert c = Ok tt.
Proof. intros ->. reflexivity. Qed.

Lemma assert_false (c : bool) : c = false -> assert c = Raise AssertionError.
Proof. intros ->. reflexivity. Qed.

Lemma in_range_lt (lo x hi : Z) : lo <= x < hi -> (lo <=? x) && (x <? hi) = true.
Proof. intros Hx. apply andb_true_intro. split; [apply Z.leb_le | apply Z.ltb_lt]; lia. Qed.

Lemma in_range_le (lo x hi : Z) : lo <= x <= hi -> (lo <=? x) && (x <=? hi) = true.
Proof. intros Hx. apply andb_true_intro. split; apply Z.leb_le; lia. Qed.

Lemma out_of_range_le (lo x hi : Z) : ~ lo <= x <= hi -> (lo <=? x) && (x <=? hi) = false.
Proof.
  intros Hx. apply andb_false_iff.
  destruct (Z.leb_spec lo x); [right | left; reflexivity].
  apply Z.leb_gt. lia.
Qed.

Lemma is_byte_true (b : Z) : 0 <= b < 256 -> is_byte b = true.
Proof. apply in_range_lt. Qed.

(** A status byte is a byte. *)
Lemma status_byte_range (event_type channel : Z) :
  0 <= event_type < 16 -> 0 <= channel < 16 ->
  0 <= Z.lor channel (Z.shiftl event_type 4) < 256.
Proof.
  intros Het Hc.
  assert (Hsh : 0 <= Z.shiftl event_type 4 < 256).
  { rewrite Z.shiftl_mul_pow2 by lia. change (2 ^ 4) with 16. lia. }
  split.
  - apply Z.lor_nonneg. lia.
  - set (x := Z.lor channel (Z.shiftl event_type 4)).
    assert (Hx : 0 <= x) by (apply Z.lor_nonneg; lia).
    destruct (Z.eq_dec x 0) as [->|Hne]; [lia|].
    change 256 with (2 ^ 8). apply Z.log2_lt_pow2; [lia|].
    unfold x. rewrite Z.log2_lor by lia.
    apply Z.max_lub_lt.
    + destruct (Z.eq_dec channel 0) as [->|?]; [reflexivity|].
      apply Z.log2_lt_pow2; [lia|].
      change (2 ^ 8) with 256. lia.
    + destruct (Z.eq_dec (Z.shiftl event_type 4) 0) as [->|?]; [reflexivity|].
      apply Z.log2_lt_pow2; [lia|].
      change (2 ^ 8) with 256. lia.
Qed.

Section Channel_events.
Context `{midi_events} `{PyMath} `{core_notes}.

(** [midi_event] on arguments in range: the delta-time, the status byte
    and the two data bytes as they were given. *)
Lemma midi_event_Ok (event_type channel param1 param2 : Z) (self : MidiTrack) :
  0 <= event_type < 16 -> 0 <= channel < 16 ->
  0 <= param1 <= 127 -> 0 <= param2 <= 127 ->
  midi_event event_type (Some channel) (Some param1) (Some param2) self
  = Ok (delta_time self ++ channel_event event_type channel param1 param2).
Proof.
  intros Het Hc Hp1 Hp2. unfold midi_event, int_operand.
  rewrite !(assert_true _ (in_range_lt _ _ _ Het)).
  cbn [outcome_bind].
  rewrite !(assert_true _ (in_range_lt _ _ _ Hc)).
  cbn [outcome_bind].
  rewrite !(assert_true _ (in_range_le _ _ _ Hp1)).
  cbn [outcome_bind].
  rewrite !(assert_true _ (in_range_le _ _ _ Hp2)).
  cbn [outcome_bind].
  unfold bytes_of_list. cbn [app forallb].
  rewrite (is_byte_true _ (status_byte_range _ _ Het Hc)).
  rewrite (is_byte_true param1), (is_byte_true param2) by lia.
  cbn [andb outcome_bind]. unfold channel_event.
  rewrite Z.lor_comm. reflexivity.
Qed.

(** [midi_event] with one data byte. *)
Lemma midi_event_Ok_1 (event_type channel param1 : Z) (self : MidiTrack) :
  0 <= event_type < 16 -> 0 <= channel < 16 -> 0 <= param1 <= 127 ->
  midi_event event_type (Some channel) (Some param1) None self
  = Ok (delta_time self ++ [Z.lor (Z.shiftl event_type 4) channel; param1]).
Proof.
  intros Het Hc Hp1. unfold midi_event, int_operand.
  rewrite !(assert_true _ (in_range_lt _ _ _ Het)).
  cbn [outcome_bind].
  rewrite !(assert_true _ (in_range_lt _ _ _ Hc)).
  cbn [outcome_bind].
  rewrite !(assert_true _ (in_range_le _ _ _ Hp1)).
  cbn [outcome_bind].
  unfold bytes_of_list. cbn [app forallb].
  rewrite (is_byte_true _ (status_byte_range _ _ Het Hc)).
  rewrite (is_byte_true param1) by lia.
  cbn [andb outcome_bind]. rewrite Z.lor_comm. reflexivity.
Qed.

(** A second data byte outside [0, 127] is refused, not clamped. *)
Lemma midi_event_param2_out_of_range
    (event_type : Z) (channel param1 : option Z) (param2 : Z) (self : MidiTrack) :
  ~ 0 <= param2 <= 127 ->
  exists e, midi_event event_type channel param1 (Some param2) self = Raise e.
Proof.
  intros Hp2. unfold midi_event.
  destruct (assert _); [|eauto]. cbn [outcome_bind].
  destruct (int_operand channel); [|eauto]. cbn [outcome_bind].
  destruct (assert _); [|eauto]. cbn [outcome_bind].
  destruct (int_operand param1); [|eauto]. cbn [outcome_bind].
  destruct (assert _); [|eauto]. cbn [outcome_bind].
  rewrite (assert_false _ (out_of_range_le _ _ _ Hp2)). eauto.
Qed.

(** A first data byte outside [0, 127] is refused, not clamped. *)
Lemma midi_event_param1_out_of_range
    (event_type : Z) (channel param2 : option Z) (param1 : Z) (self : MidiTrack) :
  ~ 0 <= param1 <= 127 ->
  exists e, midi_event event_type channel (Some param1) param2 self = Raise e.
Proof.
  intros Hp1. unfold midi_event.
  destruct (assert _); [|eauto]. cbn [outcome_bind].
  destruct (int_operand channel); [|eauto]. cbn [outcome_bind].
  destruct (assert _); [|eauto]. cbn [outcome_bind].
  cbn [int_operand outcome_bind].
  rewrite (assert_false _ (out_of_range_le _ _ _ Hp1)). eauto.
Qed.


Lemma nibbles_spec :
  nibbles = true ->
  0 <= NOTE_OFF < 16 /\ 0 <= NOTE_ON < 16 /\ 0 <= CONTROLLER < 16
  /\ 0 <= PROGRAM_CHANGE < 16 /\ 0 <= BANK_SELECT < 16.
Proof.
  unfold nibbles. cbn [forallb].
  rewrite !andb_true_iff, !Z.leb_le, !Z.ltb_lt. tauto.
Qed.

Lemma encodable_spec (n : Note) :
  encodable n = true ->
  exists c p, Note_channel n = Some c /\ Note_int n = Ok p
    /\ 0 <= c <= 15 /\ 0 <= p + 12 <= 127 /\ 0 <= Note_velocity n <= 127
    /\ forall event_type,
         note_event event_type n = channel_event event_type c (p + 12) (Note_velocity n).
Proof.
  unfold encodable, note_event.
  destruct (Note_channel n) as [c|]; [|discriminate].
  destruct (Note_int n) as [p|]; [|discriminate].
  rewrite !andb_true_iff, !Z.leb_le. intros Hr.
  exists c, p. repeat split; try reflexivity; lia.
Qed.

Lemma with_track_data_id (self : MidiTrack) :
  with_track_data (track_data self) self = self.
Proof. destruct self. reflexivity. Qed.

Lemma with_change_instrument_id (self : MidiTrack) :
  change_instrument self = false -> with_change_instrument false self = self.
Proof. destruct self. cbn. intros ->. reflexivity. Qed.

(** [set_instrument] on arguments in range writes the two events of
    [instrument_setup]. *)
Lemma set_instrument_Ok (c instr : Z) (self : MidiTrack) :
  nibbles = true -> 0 <= c <= 15 -> 0 <= instr <= 127 ->
  set_instrument (Some c) instr 1 self
  = (with_track_data
       (track_data self
        ++ (delta_time self ++ channel_event CONTROLLER BANK_SELECT c 1)
        ++ (delta_time self ++ [Z.lor (Z.shiftl PROGRAM_CHANGE 4) c; instr]))
       self, Ok tt).
Proof.
  intros Hn Hc Hi. destruct (nibbles_spec Hn) as (_ & _ & Hctl & Hpc & Hbs).
  unfold set_instrument.
  erewrite bind_Ok; cycle 1.
  { apply append_track_data_Ok. unfold select_bank, controller_event.
    apply midi_event_Ok; lia. }
  erewrite append_track_data_Ok; cycle 1.
  { unfold program_change_event. apply midi_event_Ok_1; lia. }
  cbn. rewrite <- app_assoc. reflexivity.
Qed.

(** [play_Note] on a note the encoder accepts. *)
Lemma play_Note_Ok (note : Note) (c : Z) (self : MidiTrack) :
  nibbles = true ->
  encodable note = true ->
  Note_channel note = Some c ->
  (change_instrument self = true -> 0 <= instrument self <= 127) ->
  play_Note note self
  = (with_change_instrument false
       (with_track_data
          (track_data self ++ instrument_setup self c
           ++ delta_time self ++ note_event NOTE_ON note)
          self), Ok tt).
Proof.
  intros Hn Hen Hch Hinstr.
  destruct (nibbles_spec Hn) as (_ & Hon & _).
  destruct (encodable_spec _ Hen) as (c' & p & Hc' & Hp & Hcr & Hpr & Hvr & Hev).
  rewrite Hch in Hc'. injection Hc' as <-.
  unfold play_Note. rewrite Hch, Hp.
  unfold bind at 1. cbn [lift].
  unfold instrument_setup.
  destruct (change_instrument self) eqn:Hpending.
  - unfold bind at 1. unfold bind at 1. cbn [lift].
    unfold bind at 1. rewrite set_instrument_Ok by auto.
    cbn [modify].
    unfold bind at 1. cbn [lift].
    rewrite (assert_true _ (in_range_le _ _ _ Hvr)).
    unfold bind at 1. cbn [lift].
    erewrite append_track_data_Ok; cycle 1.
    { unfold note_on. apply midi_event_Ok; lia. }
    cbn. rewrite Hev, <- !app_assoc. reflexivity.
  - unfold bind at 1. cbn [ret].
    unfold bind at 1. cbn [lift].
    rewrite (assert_true _ (in_range_le _ _ _ Hvr)).
    unfold bind at 1. cbn [lift].
    erewrite append_track_data_Ok; cycle 1.
    { unfold note_on. apply midi_event_Ok; lia. }
    rewrite Hev. cbn [app].
    destruct self; cbn in *. subst. reflexivity.
Qed.

(** [stop_Note] on a note the encoder accepts. *)
Lemma stop_Note_Ok (note : Note) (self : MidiTrack) :
  nibbles = true ->
  encodable note = true ->
  stop_Note note self
  = (with_track_data
       (track_data self ++ delta_time self ++ note_event NOTE_OFF note) self,
     Ok tt).
Proof.
  intros Hn Hen.
  destruct (nibbles_spec Hn) as (Hoff & _).
  destruct (encodable_spec _ Hen) as (c & p & Hc & Hp & Hcr & Hpr & Hvr & Hev).
  unfold stop_Note. rewrite Hc, Hp.
  unfold bind at 1. cbn [lift].
  erewrite append_track_data_Ok; cycle 1.
  { unfold note_off. apply midi_event_Ok; lia. }
  rewrite Hev. reflexivity.
Qed.


(** C3.  For a note with a channel in [0, 15], a pitch in [0, 127] after
    the shift by 12 and a velocity in [0, 127], the note-on and note-off
    events are the current delta-time, the status byte
    [(event_type << 4) | channel] and two data bytes, which are the
    shifted pitch and the velocity themselves; [play_Note] (with no
    instrument change pending) and [stop_Note] append exactly these bytes
    to [track_data]. *)
Theorem note_event_bytes (note : Note) (c p : Z) (self : MidiTrack) :
  0 <= NOTE_ON < 16 -> 0 <= NOTE_OFF < 16 ->
  Note_channel note = Some c -> 0 <= c <= 15 ->
  Note_int note = Ok p -> 0 <= p + 12 <= 127 ->
  0 <= Note_velocity note <= 127 ->
  let v := Note_velocity note in
  let on := delta_time self ++ [Z.lor (Z.shiftl NOTE_ON 4) c; p + 12; v] in
  let off := delta_time self ++ [Z.lor (Z.shiftl NOTE_OFF 4) c; p + 12; v] in
  note_on (Some c) (p + 12) v self = Ok on
  /\ note_off (Some c) (p + 12) v self = Ok off
  /\ (change_instrument self = false ->
      play_Note note self
      = ({| track_data := track_data self ++ on;
            delta_time := delta_time self;
            delay := delay self;
            bpm := bpm self;
            change_instrument := change_instrument self;
            instrument := instrument self |}, Ok tt))
  /\ stop_Note note self
     = ({| track_data := track_data self ++ off;
           delta_time := delta_time self;
           delay := delay self;
           bpm := bpm self;
           change_instrument := change_instrument self;
           instrument := instrument self |}, Ok tt).
Proof.
  intros Hon Hoff Hc Hcr Hp Hpr Hvr v on off.
  assert (Eon : note_on (Some c) (p + 12) v self = Ok on)
    by (unfold note_on; apply midi_event_Ok; lia).
  assert (Eoff : note_off (Some c) (p + 12) v self = Ok off)
    by (unfold note_off; apply midi_event_Ok; lia).
  split; [exact Eon|]. split; [exact Eoff|]. split.
  - intros Hpending. unfold play_Note. rewrite Hc, Hp.
    unfold bind at 1. cbn [lift]. rewrite Hpending.
    unfold bind at 1. cbn [ret].
    unfold bind at 1. cbn [lift].
    rewrite (assert_true _ (in_range_le _ _ _ Hvr)).
    unfold bind at 1. cbn [lift].
    etransitivity; [apply append_track_data_Ok; exact Eon|].
    unfold with_track_data. rewrite ?Hpending. reflexivity.
  - unfold stop_Note. rewrite Hc, Hp.
    unfold bind at 1. cbn [lift].
    etransitivity; [apply append_track_data_Ok; exact Eoff|]. reflexivity.
Qed.

(** Notes played one after the other with no instrument change pending:
    each note-on carries the delta-time of the encoder. *)
Lemma for_each_play_Note (notes : list Note) (self : MidiTrack) :
  nibbles = true ->
  Forall (fun n => encodable n = true) notes ->
  change_instrument self = false ->
  for_each play_Note notes self
  = (with_track_data
       (track_data self
        ++ concat (map (fun n => delta_time self ++ note_event NOTE_ON n) notes))
       self, Ok tt).
Proof.
  intros Hn Hall. revert self.
  induction Hall as [|n notes Hen _ IH]; intros self Hpending.
  - cbn. rewrite app_nil_r, with_track_data_id. reflexivity.
  - cbn [for_each].
    destruct (encodable_spec _ Hen) as (c & _ & Hc & _).
    erewrite bind_Ok; cycle 1.
    { apply (play_Note_Ok n c); auto. rewrite Hpending. discriminate. }
    unfold instrument_setup. rewrite Hpending. cbn [app].
    rewrite with_change_instrument_id by exact Hpending.
    rewrite IH by exact Hpending.
    cbn. rewrite <- !app_assoc. reflexivity.
Qed.

Lemma for_each_stop_Note (notes : list Note) (self : MidiTrack) :
  nibbles = true ->
  Forall (fun n => encodable n = true) notes ->
  for_each stop_Note notes self
  = (with_track_data
       (track_data self
        ++ concat (map (fun n => delta_time self ++ note_event NOTE_OFF n) notes))
       self, Ok tt).
Proof.
  intros Hn Hall. revert self.
  induction Hall as [|n notes Hen _ IH]; intros self.
  - cbn. rewrite app_nil_r, with_track_data_id. reflexivity.
  - cbn [for_each].
    erewrite bind_Ok; cycle 1.
    { apply stop_Note_Ok; auto. }
    rewrite IH.
    cbn. rewrite <- !app_assoc. reflexivity.
Qed.

Lemma set_deltatime_0 (self : MidiTrack) :
  int_log 1 0x80 = 0 ->
  set_deltatime 0 self = (with_delta_time [0] self, Ok tt).
Proof.
  intros Hlog. unfold set_deltatime, bind, lift, modify.
  rewrite (int_to_varbyte_0 Hlog). reflexivity.
Qed.

(** C4.  For a container of at least two notes that the encoder accepts,
    [play_NoteContainer] returns with [track_data] grown by the note-on of
    the first note behind the pending delta-time (after the instrument
    set-up, if one is pending) and the note-on of every other note behind
    the delta-time 0; [stop_NoteContainer] does the same with the
    note-offs.  Both leave the delta-time 0 behind; the other attributes
    are as they were, but for the instrument change, which is no longer
    pending after [play_NoteContainer]. *)
Theorem NoteContainer_delta_times
    (first : Note) (others : list Note) (c : Z) (self : MidiTrack) :
  nibbles = true ->
  int_log 1 0x80 = 0 ->
  others <> [] ->
  Forall (fun n => encodable n = true) (first :: others) ->
  Note_channel first = Some c ->
  (change_instrument self = true -> 0 <= instrument self <= 127) ->
  play_NoteContainer (first :: others) self
  = ({| track_data :=
          track_data self ++ instrument_setup self c
          ++ (delta_time self ++ note_event NOTE_ON first)
          ++ concat (map (fun n => [0] ++ note_event NOTE_ON n) others);
        delta_time := [0];
        delay := delay self;
        bpm := bpm self;
        change_instrument := false;
        instrument := instrument self |}, Ok tt)
  /\ stop_NoteContainer (first :: others) self
     = ({| track_data :=
             track_data self
             ++ (delta_time self ++ note_event NOTE_OFF first)
             ++ concat (map (fun n => [0] ++ note_event NOTE_OFF n) others);
           delta_time := [0];
           delay := delay self;
           bpm := bpm self;
           change_instrument := change_instrument self;
           instrument := instrument self |}, Ok tt).
Proof.
  intros Hn Hlog Hothers Hall Hc Hinstr.
  apply Forall_cons in Hall as [Hfirst Hrest].
  destruct others as [|second others]; [congruence|].
  split.
  - unfold play_NoteContainer.
    erewrite bind_Ok; cycle 1.
    { apply (play_Note_Ok first c); auto. }
    erewrite bind_Ok; cycle 1.
    { apply set_deltatime_0. exact Hlog. }
    rewrite for_each_play_Note by auto.
    cbn. rewrite <- !app_assoc. reflexivity.
  - unfold stop_NoteContainer.
    erewrite bind_Ok; cycle 1.
    { apply stop_Note_Ok; auto. }
    erewrite bind_Ok; cycle 1.
    { apply set_deltatime_0. exact Hlog. }
    rewrite for_each_stop_Note by auto.
    cbn. rewrite <- !app_assoc. reflexivity.
Qed.

(** What [play_Note] does with a velocity outside [0, 127]. *)
Lemma play_Note_refused (note : Note) (self : MidiTrack) :
  ~ 0 <= Note_velocity note <= 127 ->
  play_Note note self
  = if change_instrument self then
      match set_instrument (Note_channel note) (instrument self) 1 self with
      | (s, Ok _) => (with_change_instrument false s, Raise AssertionError)
      | (s, Raise e) => (s, Raise e)
      end
    else (self, Raise AssertionError).
Proof.
  intros Hv.
  assert (Hassert : assert ((0 <=? Note_velocity note) && (Note_velocity note <=? 127))
                    = Raise AssertionError)
    by (apply assert_false, out_of_range_le; exact Hv).
  unfold play_Note, bind, lift, modify, ret. cbv beta.
  destruct (change_instrument self).
  - destruct (set_instrument (Note_channel note) (instrument self) 1 self)
      as [s [[]|e]]; cbv beta iota; [rewrite Hassert|]; reflexivity.
  - rewrite Hassert. reflexivity.
Qed.

(** C7 (amended).  For a note whose velocity lies outside [0, 127],
    [play_Note] fails.  With no instrument change pending the encoder is
    left exactly as it was; with one pending it is left as
    [set_instrument] leaves it, so that no byte of a note-on event is
    ever written. *)
Theorem play_Note_velocity_out_of_range (note : Note) (self : MidiTrack) :
  ~ 0 <= Note_velocity note <= 127 ->
  (exists e, (play_Note note self).2 = Raise e)
  /\ (change_instrument self = false ->
      play_Note note self = (self, Raise AssertionError))
  /\ (change_instrument self = true ->
      (play_Note note self).1
      = match set_instrument (Note_channel note) (instrument self) 1 self with
        | (s, Ok _) => with_change_instrument false s
        | (s, Raise _) => s
        end).
Proof.
  intros Hv. rewrite (play_Note_refused note self Hv).
  destruct (change_instrument self).
  - destruct (set_instrument (Note_channel note) (instrument self) 1 self)
      as [s [[]|e]]; cbn; (split; [eauto|]); (split; [discriminate|reflexivity]).
  - cbn. split; [eauto|]. split; [reflexivity|discriminate].
Qed.

End Channel_events.

(** C7 (as stated) fails when an instrument change is pending: the note at
    velocity 200 is refused, but only after the bank-select and
    program-change events have been appended to [track_data]. *)
Lemma play_Note_velocity_200_pending :
  let self := with_change_instrument true MidiTrack_attributes in
  let after := @play_Note standard_midi_events standard_notes
                 (MkNote "C" 4 200 (Some 0)) self in
  after.2 = Raise AssertionError
  /\ track_data after.1 = [0x00; 0xB0; 0x00; 0x01; 0x00; 0xC0; 0x01]
  /\ track_data after.1 <> track_data self.
Proof.
  cbv zeta. split; [reflexivity|]. split; [reflexivity|]. discriminate.
Qed.

Lemma note_event_bytes_witness :
  let note := MkNote "C" 4 100 (Some 0) in
  let self := MidiTrack_attributes in
  0 <= 0x9 < 16 /\ 0 <= 0x8 < 16
  /\ @note_on standard_midi_events (Some 0) 60 100 self = Ok [0x00; 0x90; 60; 100]
  /\ @note_off standard_midi_events (Some 0) 60 100 self = Ok [0x00; 0x80; 60; 100]
  /\ (change_instrument self = false ->
      track_data (@play_Note standard_midi_events standard_notes note self).1
      = [0x00; 0x90; 60; 100])
  /\ track_data (@stop_Note standard_midi_events standard_notes note self).1
     = [0x00; 0x80; 60; 100].
Proof.
  cbv zeta. split; [lia|]. split; [lia|].
  destruct (@note_event_bytes standard_midi_events standard_notes
              (MkNote "C" 4 100 (Some 0)) 0 48 MidiTrack_attributes)
    as (Hon & Hoff & Hplay & Hstop);
    try (cbn; solve [lia | reflexivity]).
  split; [exact Hon|]. split; [exact Hoff|]. split.
  - intros Hpending. rewrite (Hplay Hpending). reflexivity.
  - rewrite Hstop. reflexivity.
Defined.

Lemma NoteContainer_delta_times_witness :
  let chord := [MkNote "C" 4 100 (Some 0); MkNote "E" 4 100 (Some 0);
                MkNote "G" 4 100 (Some 0)] in
  let self := {| track_data := [0x00; 0xFF; 0x2F; 0x00]; delta_time := [0x82; 0x20];
                 delay := 0; bpm := 120; change_instrument := false;
                 instrument := 1 |} in
  let played := (@play_NoteContainer standard_midi_events exact_log128
                   standard_notes chord self).1 in
  let stopped := (@stop_NoteContainer standard_midi_events exact_log128
                    standard_notes chord self).1 in
  track_data played
  = [0x00; 0xFF; 0x2F; 0x00;
     0x82; 0x20; 0x90; 60; 100; 0x00; 0x90; 64; 100; 0x00; 0x90; 67; 100]
  /\ delta_time played = [0]
  /\ track_data stopped
     = [0x00; 0xFF; 0x2F; 0x00;
        0x82; 0x20; 0x80; 60; 100; 0x00; 0x80; 64; 100; 0x00; 0x80; 67; 100]
  /\ delta_time stopped = [0].
Proof.
  cbv zeta.
  destruct (@NoteContainer_delta_times standard_midi_events exact_log128 standard_notes
              (MkNote "C" 4 100 (Some 0))
              [MkNote "E" 4 100 (Some 0); MkNote "G" 4 100 (Some 0)] 0
              {| track_data := [0x00; 0xFF; 0x2F; 0x00]; delta_time := [0x82; 0x20];
                 delay := 0; bpm := 120; change_instrument := false;
                 instrument := 1 |})
    as [Hplay Hstop].
  - reflexivity.
  - reflexivity.
  - discriminate.
  - repeat constructor.
  - reflexivity.
  - cbn. discriminate.
  - rewrite Hplay, Hstop. repeat split.
Defined.

Lemma play_Note_velocity_out_of_range_witness :
  let note := MkNote "C" 4 200 (Some 0) in
  ~ 0 <= Note_velocity note <= 127
  /\ @play_Note standard_midi_events standard_notes note MidiTrack_attributes
     = (MidiTrack_attributes, Raise AssertionError).
Proof.
  cbv zeta.
  assert (Hv : ~ 0 <= Note_velocity (MkNote "C" 4 200 (Some 0)) <= 127)
    by (cbn; lia).
  split; [exact Hv|].
  apply (@play_Note_velocity_out_of_range standard_midi_events standard_notes
           (MkNote "C" 4 200 (Some 0)) MidiTrack_attributes Hv).
  reflexivity.
Defined.

Lemma int_to_varbyte_leading_zero_group_witness :
  @int_log double_log128 562949953421311 0x80 = 7
  /\ @int_to_varbyte double_log128 562949953421311
     = Ok [0x80; 0xFF; 0xFF; 0xFF; 0xFF; 0xFF; 0xFF; 0x7F].
Proof.
  split; [reflexivity|].
  apply (@int_to_varbyte_leading_zero_group double_log128). reflexivity.
Defined.

(** ** Recording into the score *)

(** [record_at] appends to the bucket of its timestamp and leaves the other
    buckets alone, whatever the sign of the timestamp. *)
Lemma record_at_lookup (t : Z) (e : event) (score : Score) :
  record_at t e score !! t = Some (default [] (score !! t) ++ [e]).
Proof. unfold record_at. apply lookup_insert_eq. Qed.

Lemma record_at_lookup_ne (t t' : Z) (e : event) (score : Score) :
  t <> t' -> record_at t e score !! t' = score !! t'.
Proof. intros Hne. unfold record_at. apply lookup_insert_ne. exact Hne. Qed.

(** What [put_into_score] does when the timestamp cannot be computed:
    nothing. *)
Lemma put_into_score_raises
    (self : ControlChangeEvent.t) (channel : Z) (bpm : py_number) (score : Score)
    (e : exn) :
  ControlChangeEvent.timestamp self bpm = Raise e ->
  ControlChangeEvent.put_into_score self channel bpm score = (score, Raise e).
Proof.
  intros Ht. unfold ControlChangeEvent.put_into_score, bind, lift.
  rewrite Ht. reflexivity.
Qed.

(** C9 (amended).  [put_into_score] rejects no timestamp: for every event
    and every score, whenever the timestamp [round((beat / bpm) * 60000.0)]
    is computed, the event is appended to the bucket of that timestamp,
    negative or not; the bucket is created if absent, what it held stays in
    front in the same order, and no other bucket changes. *)
Theorem put_into_score_appends
    (self : ControlChangeEvent.t) (channel : Z) (bpm : py_number) (score : Score)
    (t : Z) :
  ControlChangeEvent.timestamp self bpm = Ok t ->
  let e := control_change channel (ControlChangeEvent.control self)
             (ControlChangeEvent.value self) in
  exists score',
    ControlChangeEvent.put_into_score self channel bpm score = (score', Ok tt)
    /\ score' !! t = Some (default [] (score !! t) ++ [e])
    /\ forall t', t <> t' -> score' !! t' = score !! t'.
Proof.
  intros Ht e. exists (<[t := default [] (score !! t) ++ [e]]> score).
  split; [|split].
  - unfold ControlChangeEvent.put_into_score, bind, lift, modify.
    rewrite Ht. reflexivity.
  - apply lookup_insert_eq.
  - intros t' Hne. apply lookup_insert_ne. exact Hne.
Qed.

(** C9 (as stated) fails for a control change at beat -4 and 128 beats per
    minute: it is recorded, and the score gains a bucket at -1875. *)
Lemma put_into_score_negative_timestamp :
  let self := {| ControlChangeEvent.beat := py_int (-4);
                 ControlChangeEvent.control := CHORUS;
                 ControlChangeEvent.value := 100 |} in
  exists score' : Score,
    ControlChangeEvent.put_into_score self 1 (py_int 128) ∅ = (score', Ok tt)
    /\ score' !! (-1875) = Some [control_change 1 CHORUS 100].
Proof.
  cbv zeta. eexists. split; [vm_compute; reflexivity|]. reflexivity.
Qed.

(** At beat 3.375 and 200 beats per minute the quotient and the product
    are rounded up on the way, so that the event goes to the bucket 1013,
    not 1012. *)
Lemma put_into_score_appends_witness :
  let self := {| ControlChangeEvent.beat := py_float (float_literal 3375 1000);
                 ControlChangeEvent.control := VOLUME;
                 ControlChangeEvent.value := 90 |} in
  let score : Score := {[ 1013 := [other_func "marker"] ]} in
  ControlChangeEvent.timestamp self (py_int 200) = Ok 1013
  /\ exists score',
       ControlChangeEvent.put_into_score self 3 (py_int 200) score = (score', Ok tt)
       /\ score' !! 1013 = Some [other_func "marker"; control_change 3 VOLUME 90]
       /\ score' !! 1012 = None.
Proof.
  cbv zeta.
  assert (Ht : ControlChangeEvent.timestamp
                 {| ControlChangeEvent.beat := py_float (float_literal 3375 1000);
                    ControlChangeEvent.control := VOLUME;
                    ControlChangeEvent.value := 90 |} (py_int 200) = Ok 1013)
    by (vm_compute; reflexivity).
  split; [exact Ht|].
  destruct (put_into_score_appends _ 3 (py_int 200)
              {[ 1013 := [other_func "marker"] ]} 1013 Ht)
    as (score' & Hput & Hat & Hother).
  exists score'. split; [exact Hput|]. split; [exact Hat|].
  rewrite Hother by discriminate. reflexivity.
Defined.

(** ** Playback *)

(** *** The sorted view of the score *)

Lemma SortedDict_items_Permutation (score : Score) :
  SortedDict_items score ≡ₚ map_to_list score.
Proof. apply merge_sort_Permutation. Qed.





(** *** The calls of a run *)





Lemma add_polls_add_polls (n m : nat) (w : world) :
  add_polls m (add_polls n w) = add_polls (n + m) w.
Proof. unfold add_polls. cbn. rewrite Nat.add_assoc. reflexivity. Qed.













(** *** The sequencer is only read *)













(** ** Persistence *)

(** Reading the digits that [str] writes. *)
Lemma digits_from_uint (u : Decimal.uint) (acc : Z) :
  digits_from (NilEmpty.string_of_uint u) acc after_digit
  = Some (uint_value acc u, EmptyString).
Proof.
  revert acc. induction u; intros acc;
    cbn [NilEmpty.string_of_uint digits_from uint_value];
    [reflexivity | ..]; apply IHu.
Qed.

Lemma uint_value_of_lu (u d : Decimal.uint) :
  uint_value (Z.of_N (DecimalPos.Unsigned.of_lu d)) u
  = Z.of_N (DecimalPos.Unsigned.of_lu (Decimal.revapp u d)).
Proof.
  revert d. induction u; intros d; cbn [uint_value Decimal.revapp];
    [reflexivity | ..]; rewrite <- IHu; f_equal;
    cbn [DecimalPos.Unsigned.of_lu]; lia.
Qed.

Lemma uint_value_of_uint (u : Decimal.uint) : uint_value 0 u = Z.of_uint u.
Proof.
  unfold Z.of_uint. rewrite DecimalPos.Unsigned.of_uint_alt.
  exact (uint_value_of_lu u Decimal.Nil).
Qed.

(** A digit is neither white space nor a sign. *)
Lemma digit_val_plain (c : ascii) (d : Z) :
  digit_val c = Some d ->
  is_space c = false /\ Ascii.eqb c "-" = false /\ Ascii.eqb c "+" = false.
Proof.
  intros Hd. split; [|split].
  - unfold digit_val in Hd. unfold is_space.
    destruct ((48 <=? Z.of_N (N_of_ascii c)) && (Z.of_N (N_of_ascii c) <=? 57))
      eqn:Hrange; [|discriminate].
    lia.
  - destruct (Ascii.eqb_spec c "-") as [->|]; [discriminate Hd | reflexivity].
  - destruct (Ascii.eqb_spec c "+") as [->|]; [discriminate Hd | reflexivity].
Qed.

(** [int] on a string that starts with a digit, or with a minus sign and a
    digit. *)
Lemma int_of_str_digit (c : ascii) (d : Z) (rest : string) :
  digit_val c = Some d ->
  let tail sign :=
    match digits_from rest d after_digit with
    | Some (n, r) =>
        match drop_spaces r with
        | EmptyString => Ok (if sign : bool then - n else n)
        | String _ _ => Raise ValueError
        end
    | None => Raise ValueError
    end in
  int_of_str (String c rest) = tail false
  /\ int_of_str (String "-" (String c rest)) = tail true.
Proof.
  intros Hd tail. destruct (digit_val_plain c d Hd) as (Hspace & Hminus & Hplus).
  split; unfold int_of_str.
  - cbn [drop_spaces]. rewrite Hspace, Hminus, Hplus.
    cbn [digits_from]. rewrite Hd. reflexivity.
  - cbn [drop_spaces]. change (is_space "-") with false. cbv iota.
    change (Ascii.eqb "-" "-") with true. cbv iota.
    cbn [digits_from]. rewrite Hd. reflexivity.
Qed.

Lemma int_of_str_digits (u : Decimal.uint) :
  u <> Decimal.Nil ->
  int_of_str (NilEmpty.string_of_uint u) = Ok (Z.of_uint u)
  /\ int_of_str (String "-" (NilEmpty.string_of_uint u)) = Ok (- Z.of_uint u).
Proof.
  intros Hnil. rewrite <- uint_value_of_uint.
  destruct u; [congruence | ..]; cbn [NilEmpty.string_of_uint uint_value];
    match goal with
    | |- int_of_str (String ?c ?rest) = _ /\ _ =>
        destruct (int_of_str_digit c (0 * 10 + _) rest eq_refl) as [-> ->]
    end;
    rewrite digits_from_uint; split; reflexivity.
Qed.

(** [int(str(k)) == k] for every integer. *)
Lemma int_of_str_of_int (k : Z) : int_of_str (str_of_int k) = Ok k.
Proof.
  unfold str_of_int. destruct k as [|p|p].
  - reflexivity.
  - cbn [Z.to_int NilZero.string_of_int].
    pose proof (DecimalPos.Unsigned.to_uint_nonnil p) as Hnil.
    assert (Hs : NilZero.string_of_uint (Pos.to_uint p)
                 = NilEmpty.string_of_uint (Pos.to_uint p))
      by (destruct (Pos.to_uint p); [congruence | reflexivity ..]).
    rewrite Hs. destruct (int_of_str_digits _ Hnil) as [-> _].
    unfold Z.of_uint. rewrite DecimalPos.Unsigned.of_to. reflexivity.
  - cbn [Z.to_int NilZero.string_of_int].
    pose proof (DecimalPos.Unsigned.to_uint_nonnil p) as Hnil.
    assert (Hs : NilZero.string_of_uint (Pos.to_uint p)
                 = NilEmpty.string_of_uint (Pos.to_uint p))
      by (destruct (Pos.to_uint p); [congruence | reflexivity ..]).
    rewrite Hs. destruct (int_of_str_digits _ Hnil) as [_ ->].
    unfold Z.of_uint. rewrite DecimalPos.Unsigned.of_to. reflexivity.
Qed.

(** The dictionary comprehension of [load_tracks] on keys written by
    [str]. *)
Lemma int_keys_str (items : list (Z * list event)) (acc : Score) :
  int_keys (map (fun kv : Z * list event => (str_of_int kv.1, kv.2)) items) acc
  = Ok (foldl (fun m kv => <[kv.1 := kv.2]> m) acc items).
Proof.
  revert acc. induction items as [|[k v] items IH]; intros acc; [reflexivity|].
  cbn [map int_keys fst snd]. rewrite int_of_str_of_int. cbn [outcome_bind].
  rewrite IH. reflexivity.
Qed.

Lemma foldl_insert (items : list (Z * list event)) (acc : Score) :
  foldl (fun m kv => <[kv.1 := kv.2]> m) acc items
  = list_to_map (reverse items) ∪ acc.
Proof.
  revert acc. induction items as [|[k v] items IH]; intros acc.
  - cbn. rewrite (left_id_L ∅ (∪)). reflexivity.
  - cbn [foldl fst snd]. rewrite IH, reverse_cons, list_to_map_app.
    cbn [list_to_map foldr fst snd uncurry].
    rewrite <- (assoc_L (∪)). f_equal.
    rewrite insert_union_singleton_l. 
    rewrite insert_empty. reflexivity.
Qed.

(** Rebuilding a dictionary from its sorted entries gives it back. *)
Lemma foldl_insert_SortedDict_items (score : Score) :
  foldl (fun m kv => <[kv.1 := kv.2]> m) ∅ (SortedDict_items score) = score.
Proof.
  rewrite foldl_insert, (right_id_L ∅ (∪)).
  rewrite <- (list_to_map_to_list score) at 2.
  symmetry. apply list_to_map_proper.
  - apply NoDup_fst_map_to_list.
  - rewrite reverse_Permutation. symmetry. apply SortedDict_items_Permutation.
Qed.

Section Persistence_proofs.
Context `{mingus_json}.
Hypothesis from_to_json : forall e, from_json (to_json e) = Ok e.

Lemma traverse_from_json (evs : list event) :
  traverse from_json (map to_json evs) = Ok evs.
Proof.
  induction evs as [|e evs IH]; [reflexivity|].
  cbn [map traverse]. rewrite from_to_json. cbn [outcome_bind].
  rewrite IH. reflexivity.
Qed.

(** Reading a written document gives the same buckets under the keys as
    strings. *)
Lemma mingus_json_load_dump (d : to_save) :
  mingus_json_load (mingus_json_dump d)
  = Ok {| data_instruments := save_instruments d;
          data_score := map (fun kv : Z * list event => (str_of_int kv.1, kv.2))
                          (save_score d) |}.
Proof.
  unfold mingus_json_load, mingus_json_dump. cbn [doc_score doc_instruments].
  assert (Ht : forall items : list (Z * list event),
    traverse (fun kv : string * list json =>
                v' <~ traverse from_json kv.2 ;; Ok (kv.1, v'))
      (map (fun kv : Z * list event => (str_of_int kv.1, map to_json kv.2)) items)
    = Ok (map (fun kv : Z * list event => (str_of_int kv.1, kv.2)) items)).
  { induction items as [|[k v] items IH]; [reflexivity|].
    cbn [map traverse fst snd]. rewrite traverse_from_json. cbn [outcome_bind].
    rewrite IH. reflexivity. }
  rewrite Ht. reflexivity.
Qed.

(** Loading the snapshot of a sequencer into any sequencer. *)
Lemma load_tracks_snapshot (saved loading : Sequencer) :
  load_tracks
    (mingus_json_dump {| save_instruments := instruments saved;
                         save_score := SortedDict_items (score saved) |})
    loading
  = (saved, Ok tt).
Proof.
  unfold load_tracks. unfold bind at 1. cbn [lift].
  rewrite mingus_json_load_dump.
  unfold bind at 1. cbn [modify data_instruments data_score save_instruments save_score].
  unfold bind at 1. cbn [lift].
  rewrite int_keys_str, foldl_insert_SortedDict_items.
  cbn [modify instruments]. destruct saved. reflexivity.
Qed.

(** [save_tracks] writes the snapshot of the sequencer as [play_Tracks]
    has left it, and fails only if [play_Tracks] does. *)
Lemma save_tracks_snapshot (tracks : list Track) (channels : list Z)
    (bpm : option py_number) (self : Sequencer) :
  save_tracks tracks channels bpm self
  = match play_Tracks tracks channels bpm self with
    | (rendered, Ok _) =>
        (rendered,
         Ok (mingus_json_dump {| save_instruments := instruments rendered;
                                 save_score := SortedDict_items (score rendered) |}))
    | (rendered, Raise e) => (rendered, Raise e)
    end.
Proof.
  unfold save_tracks. unfold bind at 1.
  destruct (play_Tracks tracks channels bpm self) as [rendered [[]|e]];
    reflexivity.
Qed.

(** C8.  Whatever [save_tracks] writes, [load_tracks] reads back as the
    sequencer that was saved: the same instrument list and the same score,
    that is the same integer timestamps with the same events in the same
    order under each. *)
Theorem save_load_roundtrip (tracks : list Track) (channels : list Z)
    (bpm : option py_number) (self saved loading : Sequencer) (d : document) :
  save_tracks tracks channels bpm self = (saved, Ok d) ->
  load_tracks d loading = (saved, Ok tt).
Proof.
  rewrite save_tracks_snapshot.
  destruct (play_Tracks tracks channels bpm self) as [rendered [[]|e]];
    intros [= <- <-].
  apply load_tracks_snapshot.
Qed.

End Persistence_proofs.

Lemma save_load_roundtrip_witness :
  let note := MkNote "C" 4 64 (Some 1) in
  let self := {| score := {[ 500 := [end_note note 1 64];
                             -20 := [control_change 1 PAN 64];
                             0 := [start_note note 1 64; control_change 1 VOLUME 90] ]};
                 instruments := [(1, {| number := 5; bank := 0 |})] |} in
  let empty := {| score := ∅; instruments := [] |} in
  exists d,
    @save_tracks transparent_json [] [] None self = (self, Ok d)
    /\ @load_tracks transparent_json d empty = (self, Ok tt).
Proof.
  cbv zeta. eexists. split.
  - reflexivity.
  - eapply (@save_load_roundtrip transparent_json (fun e => eq_refl) [] [] None).
    reflexivity.
Defined.

(** * Further properties of the code *)

(** ** The shape of a variable-length quantity *)

Lemma set_continuation_length (l : list Z) :
  length (set_continuation l) = length l.
Proof.
  induction l as [|b [|b' l'] IH]; [reflexivity | reflexivity |].
  change (set_continuation (b :: b' :: l'))
    with (Z.lor b 0x80 :: set_continuation (b' :: l')).
  cbn [length] in *. rewrite IH. reflexivity.
Qed.

(** The high bit after [set_continuation]: set on every byte but the
    last. *)
Lemma set_continuation_high_bit (l : list Z) (i : nat) (b : Z) :
  Forall (fun b => 0 <= b < 128) l ->
  set_continuation l !! i = Some b ->
  Z.testbit b 7 = bool_decide (S i < length l)%nat.
Proof.
  intros Hl. revert i. induction Hl as [|x l Hx Hl IH]; intros i Hi.
  - discriminate Hi.
  - destruct l as [|x' l'].
    + destruct i as [|i]; [|discriminate Hi].
      injection Hi as <-. rewrite testbit_7_low by exact Hx.
      symmetry. apply bool_decide_eq_false. cbn. lia.
    + change (set_continuation (x :: x' :: l'))
        with (Z.lor x 0x80 :: set_continuation (x' :: l')) in Hi.
      destruct i as [|i].
      * injection Hi as <-. rewrite lor_0x80, testbit_7_high by exact Hx.
        symmetry. apply bool_decide_eq_true. cbn. lia.
      * cbn [lookup list_lookup] in Hi. rewrite (IH i Hi).
        apply bool_decide_ext. cbn [length]. lia.
Qed.

Section VarByte_shape.
Context `{PyMath}.

(** X1.  [int_to_varbyte] never raises, whatever the logarithm is computed
    to be: it returns as many bytes as the computed length says, each of
    them a byte, with the high bit set on every byte except the last. *)
Theorem int_to_varbyte_framing (value : Z) :
  exists bs,
    int_to_varbyte value = Ok bs
    /\ length bs = Z.to_nat (int_log (Z.max value 1) 0x80 + 1)
    /\ forallb is_byte bs = true
    /\ forall i b, bs !! i = Some b ->
         Z.testbit b 7 = bool_decide (S i < length bs)%nat.
Proof.
  set (n := Z.to_nat (int_log (Z.max value 1) 0x80 + 1)).
  assert (Hgroups : (fun i => Z.land (Z.shiftr value (i * 7)) 0x7F)
                    <$> seqZ 0 (int_log (Z.max value 1) 0x80 + 1)
                    = (fun i => Z.land (Z.shiftr value (i * 7)) 0x7F)
                    <$> seqZ 0 (Z.of_nat n)).
  { destruct (Z.le_gt_cases (int_log (Z.max value 1) 0x80 + 1) 0) as [Hle|Hgt].
    - rewrite !seqZ_nil by (unfold n; lia). reflexivity.
    - unfold n. rewrite Z2Nat.id by lia. reflexivity. }
  exists (set_continuation (groups n value)).
  split; [|split; [|split]].
  - unfold int_to_varbyte. rewrite Hgroups. fold (groups n value).
    unfold pack_B. rewrite set_continuation_bytes by apply groups_range.
    reflexivity.
  - rewrite set_continuation_length, length_groups. reflexivity.
  - apply set_continuation_bytes, groups_range.
  - intros i b Hb. rewrite set_continuation_length.
    apply set_continuation_high_bit; [apply groups_range | exact Hb].
Qed.

(** X2.  Decoding gives the tick count back whenever the computed
    logarithm is not too small, be it exact or too large. *)
Theorem int_to_varbyte_roundtrip (t : Z) :
  0 <= t ->
  0 <= int_log (Z.max t 1) 0x80 ->
  t < 128 ^ (int_log (Z.max t 1) 0x80 + 1) ->
  exists bs, int_to_varbyte t = Ok bs /\ varbyte_decode bs = Some t.
Proof. apply int_to_varbyte_decode. Qed.

(** X3.  A negative value is not refused: with the logarithm of 1 computed
    as 0, it is written as the one byte [value & 0x7F], which is
    [value mod 128]. *)
Theorem int_to_varbyte_negative (value : Z) :
  value < 0 ->
  int_log 1 0x80 = 0 ->
  int_to_varbyte value = Ok [value mod 128]
  /\ varbyte_decode [value mod 128] = Some (value mod 128).
Proof.
  intros Hneg Hlog. split.
  - rewrite (int_to_varbyte_groups value 1).
    + rewrite groups_S. change (groups 0 value) with (@nil Z).
      change (Z.of_nat 0 * 7) with 0. rewrite Z.shiftr_0_r, land_0x7F. reflexivity.
    + rewrite Z.max_r by lia. rewrite Hlog. reflexivity.
  - pose proof (Z.mod_pos_bound value 128 ltac:(lia)) as Hb.
    unfold varbyte_decode. cbn [varbyte_decode_from].
    rewrite testbit_7_low by exact Hb.
    rewrite land_0x7F, Z.mod_mod by lia. reflexivity.
Qed.

End VarByte_shape.

Lemma int_to_varbyte_roundtrip_witness :
  0 <= 20000 /\
  exists bs, @int_to_varbyte exact_log128 20000 = Ok bs
             /\ varbyte_decode bs = Some 20000.
Proof.
  split; [lia|].
  apply (@int_to_varbyte_roundtrip exact_log128 20000);
    [lia | vm_compute; discriminate | vm_compute; reflexivity].
Defined.

Lemma int_to_varbyte_negative_witness :
  -1 < 0 /\ @int_to_varbyte exact_log128 (-1) = Ok [0x7F].
Proof.
  split; [lia|].
  apply (@int_to_varbyte_negative exact_log128 (-1)); [lia | reflexivity].
Defined.

(** ** Channel events, again *)

(** The two nibbles of a status byte do not overlap. *)
Lemma status_byte_sum (event_type channel : Z) :
  0 <= channel < 16 ->
  Z.lor channel (Z.shiftl event_type 4) = event_type * 16 + channel.
Proof.
  intros Hc. rewrite Z.shiftl_mul_pow2 by lia. change (2 ^ 4) with 16.
  rewrite Z.lor_comm, <- Z.add_nocarry_lor; [reflexivity|].
  apply Z.bits_inj'. intros n Hn. rewrite Z.land_spec, Z.bits_0.
  destruct (Z.lt_ge_cases n 4) as [Hlt|Hge].
  - replace (event_type * 16) with (event_type * 2 ^ 4) by reflexivity.
    rewrite Z.mul_pow2_bits_low by lia. reflexivity.
  - replace channel with (channel mod 2 ^ 4) by (apply Z.mod_small; exact Hc).
    rewrite Z.mod_pow2_bits_high by lia. apply andb_false_r.
Qed.

Section Channel_events_more.
Context `{midi_events} `{PyMath} `{core_notes}.

(** X4.  The status byte of an event carries its two arguments apart: for an
    event type and a channel in [0, 15], [midi_event] answers the
    delta-time and three bytes, the first of which has the event type as its
    high nibble and the channel as its low nibble. *)
Theorem midi_event_status_nibbles
    (event_type channel param1 param2 : Z) (self : MidiTrack) :
  0 <= event_type < 16 -> 0 <= channel < 16 ->
  0 <= param1 <= 127 -> 0 <= param2 <= 127 ->
  exists status,
    midi_event event_type (Some channel) (Some param1) (Some param2) self
    = Ok (delta_time self ++ [status; param1; param2])
    /\ Z.shiftr status 4 = event_type
    /\ Z.land status 0xF = channel.
Proof.
  intros Het Hc Hp1 Hp2.
  exists (Z.lor (Z.shiftl event_type 4) channel). split; [|split].
  - apply midi_event_Ok; assumption.
  - rewrite Z.lor_comm, status_byte_sum by exact Hc.
    rewrite Z.shiftr_div_pow2 by lia. change (2 ^ 4) with 16.
    Z.div_mod_to_equations. lia.
  - rewrite Z.lor_comm, status_byte_sum by exact Hc.
    change 0xF with (Z.ones 4). rewrite Z.land_ones by lia.
    change (2 ^ 4) with 16. Z.div_mod_to_equations. lia.
Qed.

(** What [append_track_data] leaves behind. *)
Lemma append_track_data_cases (f : MidiTrack -> outcome bytes) (self : MidiTrack) :
  (exists bs, f self = Ok bs
     /\ append_track_data f self
        = (with_track_data (track_data self ++ bs) self, Ok tt))
  \/ (exists e, f self = Raise e /\ append_track_data f self = (self, Raise e)).
Proof.
  destruct (f self) as [bs|e] eqn:Hf.
  - left. exists bs. split; [reflexivity|]. apply append_track_data_Ok. exact Hf.
  - right. exists e. split; [reflexivity|]. apply append_track_data_Raise. exact Hf.
Qed.

(** [midi_event] with two data bytes answers the delta-time and three
    bytes, or raises. *)
Lemma midi_event_length (event_type : Z) (channel param1 : option Z) (param2 : Z)
    (self : MidiTrack) (bs : bytes) :
  midi_event event_type channel param1 (Some param2) self = Ok bs ->
  exists ev, bs = delta_time self ++ ev /\ length ev = 3%nat.
Proof.
  unfold midi_event.
  destruct (assert _); [|discriminate]. cbn [outcome_bind].
  destruct (int_operand channel) as [c|]; [|discriminate]. cbn [outcome_bind].
  destruct (assert _); [|discriminate]. cbn [outcome_bind].
  destruct (int_operand param1) as [p1|]; [|discriminate]. cbn [outcome_bind].
  destruct (assert _); [|discriminate]. cbn [outcome_bind].
  destruct (assert _); [|discriminate]. cbn [outcome_bind].
  destruct (bytes_of_list _) as [b|] eqn:Hb; [|discriminate]. cbn [outcome_bind].
  intros [= <-]. exists b. split; [reflexivity|].
  unfold bytes_of_list in Hb. destruct (forallb _ _); [|discriminate].
  injection Hb as <-. reflexivity.
Qed.

(** X5.  [stop_Note] is all or nothing: either it appends the delta-time and
    exactly three bytes to [track_data] and changes nothing else, or it
    raises and leaves the encoder exactly as it was. *)
Theorem stop_Note_all_or_nothing (note : Note) (self : MidiTrack) :
  (exists ev, length ev = 3%nat
     /\ stop_Note note self
        = ({| track_data := track_data self ++ delta_time self ++ ev;
              delta_time := delta_time self;
              delay := delay self;
              bpm := bpm self;
              change_instrument := change_instrument self;
              instrument := instrument self |}, Ok tt))
  \/ (exists e, stop_Note note self = (self, Raise e)).
Proof.
  unfold stop_Note, bind, lift.
  destruct (Note_int note) as [p|e]; [|right; exists e; reflexivity].
  destruct (append_track_data_cases
              (note_off (Note_channel note) (p + 12) (Note_velocity note)) self)
    as [(bs & Hbs & ->) | (e & _ & ->)].
  - left. destruct (midi_event_length _ _ _ _ _ _ Hbs) as (ev & -> & Hlen).
    exists ev. split; [exact Hlen | reflexivity].
  - right. exists e. reflexivity.
Qed.

(** X6.  A note without a channel, as [Note()] builds it by default, cannot
    be encoded: [stop_Note] raises and leaves the encoder as it was, and so
    does [play_Note] when no instrument change is pending. *)
Theorem Note_without_channel (note : Note) (self : MidiTrack) :
  Note_channel note = None ->
  (exists e, stop_Note note self = (self, Raise e))
  /\ (change_instrument self = false ->
      exists e, play_Note note self = (self, Raise e)).
Proof.
  intros Hc.
  assert (Hev : forall event_type p1 p2,
            exists e, midi_event event_type None p1 p2 self = Raise e).
  { intros event_type p1 p2. unfold midi_event.
    destruct (assert _); [|eauto]. cbn. eauto. }
  split.
  - unfold stop_Note, bind, lift. rewrite Hc.
    destruct (Note_int note) as [p|e]; [|eauto].
    destruct (Hev NOTE_OFF (Some (p + 12)) (Some (Note_velocity note))) as [e He].
    exists e. apply append_track_data_Raise. exact He.
  - intros Hpending. unfold play_Note, bind, lift, ret. rewrite Hc, Hpending.
    destruct (assert _); [|eauto].
    destruct (Note_int note) as [p|e]; [|eauto].
    destruct (Hev NOTE_ON (Some (p + 12)) (Some (Note_velocity note))) as [e He].
    exists e. apply append_track_data_Raise. exact He.
Qed.

(** X7.  [set_instrument] is not all or nothing.  [select_bank] hands the
    channel to [controller_event] as the controller number, where any value
    up to 127 passes; so for a channel from 16 to 127 the bank-select event
    is appended to [track_data] before the program change is refused. *)
Theorem set_instrument_partial_write (channel instr : Z) (self : MidiTrack) :
  nibbles = true ->
  16 <= channel <= 127 ->
  set_instrument (Some channel) instr 1 self
  = ({| track_data := track_data self ++ delta_time self
                     ++ channel_event CONTROLLER BANK_SELECT channel 1;
        delta_time := delta_time self;
        delay := delay self;
        bpm := bpm self;
        change_instrument := change_instrument self;
        instrument := instrument self |},
     Raise AssertionError).
Proof.
  intros Hn Hc. destruct (nibbles_spec Hn) as (_ & _ & Hctl & Hpc & Hbs).
  unfold set_instrument.
  erewrite bind_Ok; cycle 1.
  { apply append_track_data_Ok. unfold select_bank, controller_event.
    apply midi_event_Ok; lia. }
  apply append_track_data_Raise.
  unfold program_change_event, midi_event.
  rewrite (assert_true _ (in_range_lt _ _ _ Hpc)). cbn [outcome_bind int_operand].
  rewrite assert_false; [reflexivity|].
  apply andb_false_iff. right. apply Z.ltb_ge. lia.
Qed.

(** *** [track_data] only grows *)

Lemma appends_only_ret {A} (a : A) : appends_only (ret a).
Proof. intros self. reflexivity. Qed.

Lemma appends_only_lift {A} (f : MidiTrack -> outcome A) : appends_only (lift f).
Proof. intros self. reflexivity. Qed.

Lemma appends_only_bind {A B} (m : M MidiTrack A) (k : A -> M MidiTrack B) :
  appends_only m -> (forall a, appends_only (k a)) -> appends_only (bind m k).
Proof.
  intros Hm Hk self. unfold bind. specialize (Hm self).
  destruct (m self) as [s [a|e]]; cbn in *.
  - etransitivity; [exact Hm | apply Hk].
  - exact Hm.
Qed.

Lemma appends_only_for_each {A} (f : A -> M MidiTrack unit) (xs : list A) :
  (forall x, appends_only (f x)) -> appends_only (for_each f xs).
Proof.
  intros Hf. induction xs as [|x xs IH]; cbn [for_each].
  - apply appends_only_ret.
  - apply appends_only_bind; [apply Hf | intros _; exact IH].
Qed.

Lemma appends_only_append_track_data (f : MidiTrack -> outcome bytes) :
  appends_only (append_track_data f).
Proof.
  intros self.
  destruct (append_track_data_cases f self) as [(bs & _ & ->) | (e & _ & ->)].
  - cbn. apply prefix_app_r. reflexivity.
  - reflexivity.
Qed.

Lemma appends_only_modify (f : MidiTrack -> MidiTrack) :
  (forall self, track_data (f self) = track_data self) ->
  appends_only (modify f).
Proof. intros Hf self. cbn. rewrite Hf. reflexivity. Qed.

Lemma appends_only_set_deltatime (delta : Z) : appends_only (set_deltatime delta).
Proof.
  unfold set_deltatime. apply appends_only_bind; [apply appends_only_lift|].
  intros d. apply appends_only_modify. reflexivity.
Qed.

Lemma appends_only_set_instrument (channel : option Z) (instr bank : Z) :
  appends_only (set_instrument channel instr bank).
Proof.
  unfold set_instrument.
  apply appends_only_bind; [apply appends_only_append_track_data|].
  intros _. apply appends_only_append_track_data.
Qed.

Lemma appends_only_play_Note (note : Note) : appends_only (play_Note note).
Proof.
  unfold play_Note.
  apply appends_only_bind; [apply appends_only_lift|]. intros pending.
  apply appends_only_bind.
  { destruct pending; [|apply appends_only_ret].
    apply appends_only_bind; [apply appends_only_lift|]. intros instr.
    apply appends_only_bind; [apply appends_only_set_instrument|]. intros _.
    apply appends_only_modify. reflexivity. }
  intros _. apply appends_only_bind; [apply appends_only_lift|]. intros _.
  apply appends_only_bind; [apply appends_only_lift|]. intros pitch.
  apply appends_only_append_track_data.
Qed.

Lemma appends_only_stop_Note (note : Note) : appends_only (stop_Note note).
Proof.
  unfold stop_Note.
  apply appends_only_bind; [apply appends_only_lift|]. intros pitch.
  apply appends_only_append_track_data.
Qed.

Lemma NoteContainer_appends_only_play (notecontainer : list Note) :
  appends_only (play_NoteContainer notecontainer).
Proof.
  unfold play_NoteContainer.
  destruct notecontainer as [|first [|second others]].
  - apply appends_only_for_each, appends_only_play_Note.
  - apply appends_only_for_each, appends_only_play_Note.
  - apply appends_only_bind; [apply appends_only_play_Note|]. intros _.
    apply appends_only_bind; [apply appends_only_set_deltatime|]. intros _.
    apply appends_only_for_each, appends_only_play_Note.
Qed.

Lemma NoteContainer_appends_only_stop (notecontainer : list Note) :
  appends_only (stop_NoteContainer notecontainer).
Proof.
  unfold stop_NoteContainer.
  destruct notecontainer as [|first [|second others]].
  - apply appends_only_for_each, appends_only_stop_Note.
  - apply appends_only_for_each, appends_only_stop_Note.
  - apply appends_only_bind; [apply appends_only_stop_Note|]. intros _.
    apply appends_only_bind; [apply appends_only_set_deltatime|]. intros _.
    apply appends_only_for_each, appends_only_stop_Note.
Qed.

(** X8.  Whatever the notes and whether the call returns or raises,
    [play_NoteContainer] and [stop_NoteContainer] only add to [track_data]:
    what was written before the call is a prefix of what is there after
    it. *)
Theorem NoteContainer_appends_only (notecontainer : list Note) :
  appends_only (play_NoteContainer notecontainer)
  /\ appends_only (stop_NoteContainer notecontainer).
Proof.
  split;
    [apply NoteContainer_appends_only_play | apply NoteContainer_appends_only_stop].
Qed.

End Channel_events_more.

Lemma midi_event_status_nibbles_witness :
  0 <= 9 < 16 /\
  exists status,
    @midi_event 9 (Some 3) (Some 60) (Some 100) MidiTrack_attributes
    = Ok ([0x00] ++ [status; 60; 100])
    /\ Z.shiftr status 4 = 9 /\ Z.land status 0xF = 3.
Proof.
  split; [lia|].
  apply (@midi_event_status_nibbles 9 3 60 100 MidiTrack_attributes); lia.
Defined.

Lemma Note_without_channel_witness :
  let note := MkNote "C" 4 64 None in
  Note_channel note = None
  /\ exists e, @stop_Note standard_midi_events standard_notes note MidiTrack_attributes
               = (MidiTrack_attributes, Raise e).
Proof.
  cbv zeta. split; [reflexivity|].
  destruct (@Note_without_channel standard_midi_events standard_notes
              (MkNote "C" 4 64 None) MidiTrack_attributes eq_refl)
    as [Hstop _].
  exact Hstop.
Defined.

Lemma set_instrument_partial_write_witness :
  @nibbles standard_midi_events = true /\ 16 <= 20 <= 127
  /\ (@set_instrument standard_midi_events (Some 20) 5 1 MidiTrack_attributes).2
     = Raise AssertionError
  /\ track_data
       (@set_instrument standard_midi_events (Some 20) 5 1 MidiTrack_attributes).1
     = [0x00; 0xB0; 20; 1].
Proof.
  split; [reflexivity|]. split; [lia|].
  rewrite (@set_instrument_partial_write standard_midi_events 20 5 MidiTrack_attributes)
    by (reflexivity || lia).
  split; reflexivity.
Defined.

(** ** The track chunk *)

(** ["%0<w>x" % v] has exactly [w] digits when [v] fits in them. *)
Lemma format_0x_fixed (w : nat) (v : Z) :
  (1 <= w)%nat -> 0 <= v < 16 ^ Z.of_nat w -> format_0x w v = hex_fixed w v.
Proof.
  intros Hw Hv. unfold format_0x.
  destruct (Z.ltb_spec v 0) as [?|_]; [lia|].
  rewrite Z.abs_eq by lia.
  destruct (format_x_fixed v ltac:(lia)) as (d & Hmin & Hmax & ->).
  rewrite length_hex_fixed. cbn [length app].
  assert (Hdw : (d <= w)%nat).
  { destruct Hmin as [-> | Hmin]; [lia|].
    destruct (Nat.le_gt_cases d w) as [?|Hgt]; [assumption|exfalso].
    assert (16 ^ Z.of_nat w <= 16 ^ Z.of_nat (d - 1))
      by (apply Z.pow_le_mono_r; lia).
    lia. }
  rewrite hex_fixed_pad by lia.
  replace (w - 0 - d + d)%nat with w by lia. reflexivity.
Qed.

(** [a2b_hex] reads eight digits back as four bytes, most significant
    first. *)
Lemma a2b_hex_fixed_8 (v : Z) :
  0 <= v < 16 ^ 8 ->
  a2b_hex (hex_fixed 8 v)
  = Ok [v / 16777216; v / 65536 mod 256; v / 256 mod 256; v mod 256].
Proof.
  intros Hv. change (16 ^ 8) with 4294967296 in Hv.
  unfold a2b_hex. rewrite length_hex_fixed. cbn [Nat.even].
  cbn [hex_fixed app a2b_hex_pairs].
  rewrite !hex_val_hex_char by (apply Z.mod_pos_bound; lia).
  cbn [outcome_bind].
  repeat f_equal.
  all: Z.div_mod_to_equations; lia.
Qed.

Section Track_chunk.
Context `{midi_meta_events}.

(** X9.  For a track of fewer than [2 ^ 32 - 4] bytes, [get_midi_data] is
    the track header, a 4-byte big-endian size, [track_data] and the
    end-of-track event, and the size is the number of bytes that follow
    it. *)
Theorem get_midi_data_chunk (self : MidiTrack) :
  Z.of_nat (length (track_data self)) + 4 < 2 ^ 32 ->
  exists size : bytes,
    header self = Ok (TRACK_HEADER ++ size)
    /\ get_midi_data self
       = Ok (TRACK_HEADER ++ size ++ track_data self ++ end_of_track)
    /\ length size = 4%nat
    /\ forallb is_byte size = true
    /\ big_endian size = Z.of_nat (length (track_data self ++ end_of_track)).
Proof.
  intros Hlen.
  set (v := Z.of_nat (length (track_data self)) + Z.of_nat (length end_of_track)).
  assert (Hv : 0 <= v < 16 ^ 8).
  { unfold v. cbn [length end_of_track]. change (16 ^ 8) with (2 ^ 32). lia. }
  assert (Hheader : header self
                    = Ok (TRACK_HEADER
                          ++ [v / 16777216; v / 65536 mod 256; v / 256 mod 256;
                              v mod 256])).
  { unfold header. fold v.
    rewrite format_0x_fixed, a2b_hex_fixed_8 by (exact Hv || lia). reflexivity. }
  change (16 ^ 8) with 4294967296 in Hv.
  exists [v / 16777216; v / 65536 mod 256; v / 256 mod 256; v mod 256].
  split; [exact Hheader|]. split; [|split; [|split]].
  - unfold get_midi_data. rewrite Hheader. cbn [outcome_bind].
    rewrite <- app_assoc. reflexivity.
  - reflexivity.
  - unfold is_byte. cbn [forallb].
    rewrite !andb_true_iff, !Z.leb_le, !Z.ltb_lt.
    repeat split; try exact I; Z.div_mod_to_equations; lia.
  - rewrite length_app, Nat2Z.inj_add. fold v.
    unfold big_endian. cbn [fold_left]. Z.div_mod_to_equations. lia.
Qed.

End Track_chunk.

Lemma get_midi_data_chunk_witness :
  let self := with_track_data [0x00; 0x90; 60; 100] MidiTrack_attributes in
  Z.of_nat (length (track_data self)) + 4 < 2 ^ 32
  /\ exists size,
       @get_midi_data standard_meta_events self
       = Ok ([0x4D; 0x54; 0x72; 0x6B] ++ size
             ++ [0x00; 0x90; 60; 100] ++ [0x00; 0xFF; 0x2F; 0x00])
       /\ length size = 4%nat /\ big_endian size = 8.
Proof.
  cbv zeta. split; [cbn; lia|].
  destruct (@get_midi_data_chunk standard_meta_events
              (with_track_data [0x00; 0x90; 60; 100] MidiTrack_attributes))
    as (size & _ & Hdata & Hlen & _ & Hsize).
  - cbn. lia.
  - exists size. split; [exact Hdata|]. split; [exact Hlen | exact Hsize].
Defined.

(** ** Meta events *)

(** ["%02x"] and [a2b_hex] on one byte. *)
Lemma a2b_hex_format_02x (v : Z) :
  0 <= v < 256 -> a2b_hex (format_0x 2 v) = Ok [v].
Proof.
  intros Hv. rewrite format_0x_fixed by (lia || (change (16 ^ Z.of_nat 2) with 256; lia)).
  unfold a2b_hex. rewrite length_hex_fixed. cbn [Nat.even].
  cbn [hex_fixed app a2b_hex_pairs].
  rewrite !hex_val_hex_char by (apply Z.mod_pos_bound; lia).
  cbn [outcome_bind]. repeat f_equal. Z.div_mod_to_equations. lia.
Qed.

(** Three hexadecimal digits are refused. *)
Lemma a2b_hex_format_02x_three_digits (v : Z) :
  256 <= v < 4096 -> a2b_hex (format_0x 2 v) = Raise binascii_Error.
Proof.
  intros Hv. unfold format_0x.
  destruct (Z.ltb_spec v 0) as [?|_]; [lia|].
  rewrite Z.abs_eq by lia.
  destruct (format_x_fixed v ltac:(lia)) as (d & Hmin & Hmax & ->).
  rewrite length_hex_fixed. cbn [length app].
  assert (Hd : d = 3%nat).
  { destruct Hmin as [-> | Hmin]; [change (16 ^ Z.of_nat 1) with 16 in Hmax; lia|].
    destruct (Nat.lt_trichotomy d 3) as [Hlt | [Heq | Hgt]]; [|exact Heq|].
    - assert (16 ^ Z.of_nat d <= 16 ^ 2) by (apply Z.pow_le_mono_r; lia).
      change (16 ^ 2) with 256 in *. lia.
    - assert (16 ^ 3 <= 16 ^ Z.of_nat (d - 1)) by (apply Z.pow_le_mono_r; lia).
      change (16 ^ 3) with 4096 in *. lia. }
  subst d. cbn [Nat.sub replicate app].
  unfold a2b_hex. rewrite length_hex_fixed. reflexivity.
Qed.

Lemma encode_ascii_codes (name : string) :
  Forall (fun c => c < 128) (codes name) -> encode_ascii name = Ok (codes name).
Proof.
  induction name as [|c name IH]; intros Hall; [reflexivity|].
  cbn [codes] in Hall. apply Forall_cons in Hall as [Hc Hall].
  cbn [encode_ascii codes].
  destruct (Z.ltb_spec (Z.of_N (N_of_ascii c)) 128) as [_|?]; [|lia].
  rewrite (IH Hall). reflexivity.
Qed.

Lemma encode_ascii_refuses (name : string) :
  ~ Forall (fun c => c < 128) (codes name) -> encode_ascii name = Raise ValueError.
Proof.
  induction name as [|c name IH]; intros Hnot.
  - exfalso. apply Hnot. constructor.
  - cbn [encode_ascii].
    destruct (Z.ltb_spec (Z.of_N (N_of_ascii c)) 128) as [Hc|?]; [|reflexivity].
    rewrite IH; [reflexivity|].
    intros Hall. apply Hnot. cbn [codes]. constructor; assumption.
Qed.

Lemma list_index_nonneg (x : string) (l : list string) (i : Z) :
  list_index x l = Ok i -> 0 <= i.
Proof.
  revert i. induction l as [|y l IH]; intros i; [discriminate|].
  cbn [list_index]. destruct (String.eqb y x).
  - intros [= <-]. lia.
  - destruct (list_index x l) as [j|]; [|discriminate].
    cbn [outcome_bind]. intros [= <-]. specialize (IH j eq_refl). lia.
Qed.

Section Meta_events.
Context `{midi_events} `{midi_meta_events} `{core_keys} `{PyMath} `{core_notes}.

(** X10.  The track-name event of a name made of ASCII characters is a
    zero delta-time, whatever delta-time is pending, the meta prefix, the
    track-name type, the length of the name as [int_to_varbyte] writes it
    and the character codes; a name with a character above 127 is
    refused. *)
Theorem track_name_event_text (name : string) :
  (Forall (fun c => c < 128) (codes name) ->
   exists l,
     int_to_varbyte (Z.of_nat (String.length name)) = Ok l
     /\ track_name_event (Some name)
        = Ok ([0x00] ++ META_EVENT ++ TRACK_NAME ++ l ++ codes name))
  /\ (~ Forall (fun c => c < 128) (codes name) ->
      track_name_event (Some name) = Raise ValueError).
Proof.
  destruct (int_to_varbyte_framing (Z.of_nat (String.length name)))
    as (l & Hl & _).
  split.
  - intros Hascii. exists l. split; [exact Hl|].
    unfold track_name_event. rewrite Hl. cbn [outcome_bind].
    rewrite (encode_ascii_codes name Hascii). reflexivity.
  - intros Hnot. unfold track_name_event. rewrite Hl. cbn [outcome_bind].
    rewrite (encode_ascii_refuses name Hnot). reflexivity.
Qed.

(** X11.  For a numerator that is a byte and a positive denominator whose
    logarithm to base 2 is computed as a byte, the time-signature event is
    the delta-time, the meta prefix, the type, the length 4, the numerator,
    that logarithm and the two bytes [18 08]. *)
Theorem time_signature_event_bytes (meter : Z * Z) (self : MidiTrack) :
  0 <= meter.1 < 256 ->
  0 < meter.2 ->
  0 <= int_log meter.2 2 < 256 ->
  time_signature_event meter self
  = Ok (delta_time self ++ META_EVENT ++ TIME_SIGNATURE
        ++ [0x04; meter.1; int_log meter.2 2; 0x18; 0x08]).
Proof.
  intros Hn Hd Hlog. unfold time_signature_event.
  rewrite (a2b_hex_format_02x _ Hn). cbn [outcome_bind].
  destruct (Z.leb_spec meter.2 0) as [?|_]; [lia|]. cbn [outcome_bind].
  rewrite (a2b_hex_format_02x _ Hlog). reflexivity.
Qed.

(** X12.  The time-signature event is refused for a numerator from 256 to
    4095, whose three hexadecimal digits [a2b_hex] does not take, and for a
    denominator that is not positive, of which there is no logarithm. *)
Theorem time_signature_event_refused (meter : Z * Z) (self : MidiTrack) :
  (256 <= meter.1 < 4096 ->
   time_signature_event meter self = Raise binascii_Error)
  /\ (0 <= meter.1 < 256 -> meter.2 <= 0 ->
      time_signature_event meter self = Raise ValueError).
Proof.
  split.
  - intros Hn. unfold time_signature_event.
    rewrite (a2b_hex_format_02x_three_digits _ Hn). reflexivity.
  - intros Hn Hd. unfold time_signature_event.
    rewrite (a2b_hex_format_02x _ Hn). cbn [outcome_bind].
    destruct (Z.leb_spec meter.2 0) as [_|?]; [reflexivity|lia].
Qed.

(** X13.  A key found at position [i] of its list, the list of minor keys
    if the name is lowercase and of major keys otherwise, gives the
    key-signature event with the byte [(i - 7) mod 256], the two's
    complement of its distance from the eighth entry, and the mode byte 1
    for minor and 0 for major; a key that is not in its list is refused. *)
Theorem key_signature_event_bytes (name : string) (self : MidiTrack) :
  let keys := if islower name then minor_keys else major_keys in
  (forall i, list_index name keys = Ok i -> i < 263 ->
     key_signature_event name self
     = Ok (delta_time self ++ META_EVENT ++ KEY_SIGNATURE
           ++ [0x02; (i - 7) mod 256; if islower name then 1 else 0]))
  /\ (forall e, list_index name keys = Raise e ->
        key_signature_event name self = Raise e).
Proof.
  cbv zeta. split.
  - intros i Hi Hmax. pose proof (list_index_nonneg _ _ _ Hi) as Hmin.
    assert (Hbyte : a2b_hex (format_0x 2 (if i - 7 <? 0 then 256 + (i - 7) else i - 7))
                    = Ok [(i - 7) mod 256]).
    { destruct (Z.ltb_spec (i - 7) 0) as [Hneg|Hpos].
      - replace ((i - 7) mod 256) with (256 + (i - 7))
          by (apply Z.mod_unique with (q := -1); lia).
        apply a2b_hex_format_02x. lia.
      - rewrite Z.mod_small by lia. apply a2b_hex_format_02x. lia. }
    unfold key_signature_event.
    destruct (islower name); rewrite Hi; cbn [outcome_bind fst snd];
      rewrite Hbyte; reflexivity.
  - intros e He. unfold key_signature_event.
    destruct (islower name); rewrite He; reflexivity.
Qed.

End Meta_events.

Lemma time_signature_event_bytes_witness :
  0 <= 6 < 256 /\ 0 < 8
  /\ @time_signature_event standard_midi_events standard_meta_events exact_log
       (6, 8) MidiTrack_attributes
     = Ok [0x00; 0xFF; 0x58; 0x04; 6; 3; 0x18; 0x08].
Proof.
  split; [lia|]. split; [lia|].
  apply (@time_signature_event_bytes standard_midi_events standard_meta_events
           exact_log (6, 8) MidiTrack_attributes);
    vm_compute; first [reflexivity | split; [discriminate | reflexivity]].
Defined.

Lemma time_signature_event_refused_witness :
  256 <= 300 < 4096
  /\ @time_signature_event standard_midi_events standard_meta_events exact_log
       (300, 4) MidiTrack_attributes
     = Raise binascii_Error.
Proof.
  split; [lia|].
  apply (@time_signature_event_refused standard_midi_events standard_meta_events
           exact_log (300, 4) MidiTrack_attributes).
  cbn. lia.
Defined.

Lemma track_name_event_text_witness :
  Forall (fun c => c < 128) (codes "Lead")
  /\ exists l,
       @track_name_event standard_midi_events standard_meta_events exact_log
         (Some "Lead"%string)
       = Ok ([0x00; 0xFF; 0x03] ++ l ++ [76; 101; 97; 100]).
Proof.
  assert (Hascii : Forall (fun c => c < 128) (codes "Lead"))
    by (repeat constructor).
  split; [exact Hascii|].
  destruct (@track_name_event_text standard_midi_events standard_meta_events
              exact_log "Lead") as [Hok _].
  destruct (Hok Hascii) as (l & _ & Hev).
  exists l. exact Hev.
Defined.

Lemma key_signature_event_bytes_witness :
  @list_index "Eb" (@major_keys standard_keys) = Ok 4 /\ 4 < 263
  /\ @key_signature_event standard_midi_events standard_meta_events standard_keys
       "Eb" MidiTrack_attributes
     = Ok [0x00; 0xFF; 0x59; 0x02; 253; 0].
Proof.
  split; [reflexivity|]. split; [lia|].
  destruct (@key_signature_event_bytes standard_midi_events standard_meta_events
              standard_keys "Eb" MidiTrack_attributes) as [Hfound _].
  apply (Hfound 4); [reflexivity | lia].
Defined.

(** ** Bars and tracks in the encoder *)

Lemma with_delta_time_id (self : MidiTrack) :
  with_delta_time (delta_time self) self = self.
Proof. destruct self. reflexivity. Qed.

Lemma with_delay_id (self : MidiTrack) : with_delay (delay self) self = self.
Proof. destruct self. reflexivity. Qed.

Section Bars.
Context `{midi_events} `{midi_meta_events} `{core_keys} `{PyMath} `{core_notes}.

(** A group of notes the encoder accepts, played with no instrument change
    pending. *)
Lemma play_NoteContainer_Ok (first : Note) (others : list Note) (self : MidiTrack) :
  nibbles = true ->
  int_log 1 0x80 = 0 ->
  Forall (fun n => encodable n = true) (first :: others) ->
  change_instrument self = false ->
  play_NoteContainer (first :: others) self
  = (with_delta_time (match others with [] => delta_time self | _ :: _ => [0] end)
       (with_track_data
          (track_data self ++ container_events NOTE_ON (delta_time self) first others)
          self), Ok tt).
Proof.
  intros Hn Hlog Hall Hpending. unfold container_events.
  destruct others as [|second others].
  - unfold play_NoteContainer. rewrite for_each_play_Note by assumption.
    cbn [map concat]. rewrite !app_nil_r.
    rewrite <- (with_delta_time_id (with_track_data _ self)) at 1. reflexivity.
  - apply Forall_cons in Hall as [Hfirst Hrest].
    destruct (encodable_spec _ Hfirst) as (c & _ & Hc & _).
    unfold play_NoteContainer.
    erewrite bind_Ok; cycle 1.
    { apply (play_Note_Ok first c); auto. rewrite Hpending. discriminate. }
    unfold instrument_setup. rewrite Hpending. cbn [app].
    rewrite with_change_instrument_id by exact Hpending.
    erewrite bind_Ok; cycle 1.
    { apply set_deltatime_0. exact Hlog. }
    rewrite for_each_play_Note by auto.
    cbn. rewrite <- !app_assoc. reflexivity.
Qed.

Lemma stop_NoteContainer_Ok (first : Note) (others : list Note) (self : MidiTrack) :
  nibbles = true ->
  int_log 1 0x80 = 0 ->
  Forall (fun n => encodable n = true) (first :: others) ->
  stop_NoteContainer (first :: others) self
  = (with_delta_time (match others with [] => delta_time self | _ :: _ => [0] end)
       (with_track_data
          (track_data self ++ container_events NOTE_OFF (delta_time self) first others)
          self), Ok tt).
Proof.
  intros Hn Hlog Hall. unfold container_events.
  destruct others as [|second others].
  - unfold stop_NoteContainer. rewrite for_each_stop_Note by assumption.
    cbn [map concat]. rewrite !app_nil_r.
    rewrite <- (with_delta_time_id (with_track_data _ self)) at 1. reflexivity.
  - apply Forall_cons in Hall as [Hfirst Hrest].
    unfold stop_NoteContainer.
    erewrite bind_Ok; cycle 1.
    { apply stop_Note_Ok; auto. }
    erewrite bind_Ok; cycle 1.
    { apply set_deltatime_0. exact Hlog. }
    rewrite for_each_stop_Note by auto.
    cbn. rewrite <- !app_assoc. reflexivity.
Qed.

(** X14.  An entry of a bar with notes the encoder accepts, no tempo of its
    own and no instrument change pending: the note-ons go behind the
    delta-time of the pending delay (the first) and 0 (the others), the
    note-offs behind the delta-time of the entry's ticks,
    [int(round((1.0 / duration) * 288))] as the doubles give them, (the
    first) and 0 (the others), and the delay is used up. *)
Theorem play_entry_notes (beat duration : py_number) (nc : NoteContainer)
    (first : Note) (others : list Note) (tick : Z) (self : MidiTrack) :
  nibbles = true ->
  int_log 1 0x80 = 0 ->
  ticks duration = Ok tick ->
  container_bpm nc = None ->
  container_notes nc = first :: others ->
  Forall (fun n => encodable n = true) (first :: others) ->
  change_instrument self = false ->
  exists pending lasting : bytes,
    int_to_varbyte (delay self) = Ok pending
    /\ int_to_varbyte tick = Ok lasting
    /\ play_entry (beat, duration, Some nc) self
       = ({| track_data :=
               track_data self
               ++ container_events NOTE_ON pending first others
               ++ container_events NOTE_OFF lasting first others;
             delta_time := match others with [] => lasting | _ :: _ => [0] end;
             delay := 0;
             bpm := bpm self;
             change_instrument := false;
             instrument := instrument self |}, Ok tt).
Proof.
  intros Hn Hlog Htick Hbpm Hnotes Hall Hpending.
  destruct (int_to_varbyte_framing (delay self)) as (pending & Hp & _).
  destruct (int_to_varbyte_framing tick) as (lasting & Hl & _).
  exists pending, lasting. split; [exact Hp|]. split; [exact Hl|].
  unfold play_entry. cbn [fst snd]. rewrite Htick, Hnotes, Hbpm.
  unfold bind at 1. cbn [lift].
  unfold bind at 1. cbn [lift].
  erewrite bind_Ok; cycle 1.
  { unfold set_deltatime, bind, lift, modify. rewrite Hp. reflexivity. }
  unfold bind at 1. cbn [modify].
  unfold bind at 1. cbn [ret].
  erewrite bind_Ok; cycle 1.
  { apply play_NoteContainer_Ok; auto. }
  unfold bind at 1. cbn [lift]. rewrite Hl.
  unfold bind at 1. unfold set_deltatime_bytes at 1. cbn [modify].
  rewrite stop_NoteContainer_Ok by auto.
  destruct others; unfold container_events, with_delta_time, with_delay,
    with_track_data; cbn; rewrite <- ?app_assoc; cbn; rewrite <- ?Hpending;
    reflexivity.
Qed.

(** What an entry that sounds nothing does. *)
Lemma play_entry_rest (x : py_number * py_number * option NoteContainer) (self : MidiTrack) :
  is_rest x = true ->
  play_entry x self
  = match ticks x.1.2 with
    | Ok t => (with_delay (delay self + t) self, Ok tt)
    | Raise e => (self, Raise e)
    end.
Proof.
  intros Hrest. unfold play_entry, bind, lift.
  destruct (ticks x.1.2) as [t|e]; [|reflexivity].
  unfold is_rest in Hrest.
  destruct x.2 as [nc|]; [|reflexivity].
  destruct (container_notes nc); [reflexivity|discriminate].
Qed.

(** X15.  Entries of a bar that sound nothing and whose ticks can be
    computed write no byte: they add their ticks,
    [int(round((1.0 / duration) * 288))] as the doubles give them, to the
    delay and leave the rest of the encoder as it was. *)
Theorem rests_accumulate
    (xs : list (py_number * py_number * option NoteContainer)) (self : MidiTrack) :
  Forall (fun x => is_rest x = true /\ exists t, ticks x.1.2 = Ok t) xs ->
  for_each play_entry xs self
  = ({| track_data := track_data self;
        delta_time := delta_time self;
        delay := delay self + total_ticks xs;
        bpm := bpm self;
        change_instrument := change_instrument self;
        instrument := instrument self |}, Ok tt).
Proof.
  intros Hall. revert self.
  induction Hall as [|x xs [Hrest [t Ht]] _ IH]; intros self.
  - cbn. unfold ret. rewrite Z.add_0_r. destruct self; reflexivity.
  - cbn [for_each total_ticks fold_right].
    fold (total_ticks xs).
    erewrite bind_Ok; cycle 1.
    { rewrite (play_entry_rest x self Hrest), Ht. reflexivity. }
    rewrite IH, Ht. cbn.
    rewrite Z.add_assoc. reflexivity.
Qed.


Lemma appends_only_set_tempo (b : Z) : appends_only (set_tempo b).
Proof.
  unfold set_tempo.
  apply appends_only_bind; [apply appends_only_modify; reflexivity|].
  intros _. apply appends_only_append_track_data.
Qed.

Lemma appends_only_play_entry (x : py_number * py_number * option NoteContainer) :
  appends_only (play_entry x).
Proof.
  unfold play_entry.
  apply appends_only_bind; [apply appends_only_lift|]. intros tick.
  destruct x.2 as [nc|]; [|apply appends_only_modify; reflexivity].
  destruct (container_notes nc) as [|n ns] eqn:Hnotes;
    [apply appends_only_modify; reflexivity|].
  apply appends_only_bind; [apply appends_only_lift|]. intros d.
  apply appends_only_bind; [apply appends_only_set_deltatime|]. intros _.
  apply appends_only_bind; [apply appends_only_modify; reflexivity|]. intros _.
  apply appends_only_bind.
  { destruct (container_bpm nc); [|apply appends_only_ret].
    apply appends_only_bind; [apply appends_only_set_deltatime|]. intros _.
    apply appends_only_set_tempo. }
  intros _.
  apply appends_only_bind; [apply NoteContainer_appends_only_play|]. intros _.
  apply appends_only_bind; [apply appends_only_lift|]. intros t.
  apply appends_only_bind; [apply appends_only_modify; reflexivity|]. intros _.
  apply NoteContainer_appends_only_stop.
Qed.

Lemma appends_only_play_Bar (bar : bar_content) : appends_only (play_Bar bar).
Proof.
  unfold play_Bar.
  apply appends_only_bind; [apply appends_only_lift|]. intros d.
  apply appends_only_bind; [apply appends_only_set_deltatime|]. intros _.
  apply appends_only_bind; [apply appends_only_modify; reflexivity|]. intros _.
  apply appends_only_bind; [apply appends_only_append_track_data|]. intros _.
  apply appends_only_bind; [apply appends_only_set_deltatime|]. intros _.
  apply appends_only_bind.
  { unfold set_key. apply appends_only_bind; [apply appends_only_lift|].
    intros k. apply appends_only_append_track_data. }
  intros _. apply appends_only_for_each, appends_only_play_entry.
Qed.

(** X17.  Whatever the bars and whether the call returns or raises,
    [play_Bar] and [MidiTrack.play_Track] only add to [track_data]. *)
Theorem play_Track_appends_only (bar : bar_content) (track : track_content) :
  appends_only (play_Bar bar) /\ appends_only (MidiTrack_play_Track track).
Proof.
  split; [apply appends_only_play_Bar|].
  unfold MidiTrack_play_Track.
  apply appends_only_bind; [apply appends_only_append_track_data|]. intros _.
  apply appends_only_bind; [apply appends_only_modify; reflexivity|]. intros _.
  apply appends_only_bind.
  { destruct (content_instrument_number track); [|apply appends_only_ret].
    apply appends_only_bind; apply appends_only_modify || intros _;
      try reflexivity.
    apply appends_only_modify. reflexivity. }
  intros _. apply appends_only_for_each, appends_only_play_Bar.
Qed.

(** X18.  A track whose name is [None], as [Track] leaves it unless a name
    is given, cannot be written: [MidiTrack.play_Track] raises [TypeError]
    at once and leaves the encoder exactly as it was. *)
Theorem play_Track_without_name (track : track_content) (self : MidiTrack) :
  content_name track = None ->
  MidiTrack_play_Track track self = (self, Raise TypeError).
Proof.
  intros Hname. unfold MidiTrack_play_Track, set_track_name. rewrite Hname.
  apply bind_Raise. apply append_track_data_Raise. reflexivity.
Qed.

End Bars.

(** A quarter note lasts 72 ticks; the triplet of a double-dotted
    thirty-second note, of duration 27.428571428571427, lasts 10 (the
    product [(1.0 / duration) * 288] is the double just below 10.5). *)
Lemma play_entry_notes_witness :
  let note := MkNote "C" 4 100 (Some 0) in
  let nc := {| container_notes := [note]; container_bpm := None |} in
  let triplet := py_float (float_literal 27428571428571427 1000000000000000) in
  let self := {| track_data := []; delta_time := [0x00]; delay := 288; bpm := 120;
                 change_instrument := false; instrument := 1 |} in
  ticks (py_int 4) = Ok 72 /\ ticks triplet = Ok 10
  /\ track_data
       (@play_entry standard_midi_events exact_log standard_notes
          (py_int 0, py_int 4, Some nc) self).1
     = [0x82; 0x20; 0x90; 60; 100; 0x48; 0x80; 60; 100]
  /\ track_data
       (@play_entry standard_midi_events exact_log standard_notes
          (py_int 0, triplet, Some nc) self).1
     = [0x82; 0x20; 0x90; 60; 100; 0x0A; 0x80; 60; 100].
Proof.
  cbv zeta.
  assert (Hquarter : ticks (py_int 4) = Ok 72) by (vm_compute; reflexivity).
  assert (Htriplet : ticks (py_float (float_literal 27428571428571427
                                        1000000000000000)) = Ok 10)
    by (vm_compute; reflexivity).
  split; [exact Hquarter|]. split; [exact Htriplet|]. split.
  - destruct (@play_entry_notes standard_midi_events exact_log standard_notes
                (py_int 0) (py_int 4)
                {| container_notes := [MkNote "C" 4 100 (Some 0)];
                   container_bpm := None |}
                (MkNote "C" 4 100 (Some 0)) [] 72
                {| track_data := []; delta_time := [0x00]; delay := 288; bpm := 120;
                   change_instrument := false; instrument := 1 |})
      as (pending & lasting & Hp & Hl & ->);
      try reflexivity; try exact Hquarter; try (repeat constructor; fail).
    vm_compute in Hp. vm_compute in Hl.
    injection Hp as <-. injection Hl as <-. reflexivity.
  - destruct (@play_entry_notes standard_midi_events exact_log standard_notes
                (py_int 0)
                (py_float (float_literal 27428571428571427 1000000000000000))
                {| container_notes := [MkNote "C" 4 100 (Some 0)];
                   container_bpm := None |}
                (MkNote "C" 4 100 (Some 0)) [] 10
                {| track_data := []; delta_time := [0x00]; delay := 288; bpm := 120;
                   change_instrument := false; instrument := 1 |})
      as (pending & lasting & Hp & Hl & ->);
      try reflexivity; try exact Htriplet; try (repeat constructor; fail).
    vm_compute in Hp. vm_compute in Hl.
    injection Hp as <-. injection Hl as <-. reflexivity.
Defined.

Lemma rests_accumulate_witness :
  let triplet := py_float (float_literal 27428571428571427 1000000000000000) in
  let xs : list (py_number * py_number * option NoteContainer) :=
    [(py_int 0, py_int 4, None);
     (py_float (float_literal 25 100), triplet,
      Some {| container_notes := []; container_bpm := None |})] in
  let self := {| track_data := [0x00]; delta_time := [0x00]; delay := 5; bpm := 120;
                 change_instrument := false; instrument := 1 |} in
  Forall (fun x => is_rest x = true /\ exists t, ticks x.1.2 = Ok t) xs
  /\ ticks (py_int 4) = Ok 72 /\ ticks triplet = Ok 10
  /\ @for_each MidiTrack _
       (@play_entry standard_midi_events exact_log standard_notes) xs self
     = ({| track_data := [0x00]; delta_time := [0x00]; delay := 87; bpm := 120;
           change_instrument := false; instrument := 1 |}, Ok tt).
Proof.
  cbv zeta.
  assert (Hquarter : ticks (py_int 4) = Ok 72) by (vm_compute; reflexivity).
  assert (Htriplet : ticks (py_float (float_literal 27428571428571427
                                        1000000000000000)) = Ok 10)
    by (vm_compute; reflexivity).
  assert (Hall : Forall (fun x : py_number * py_number * option NoteContainer =>
                           is_rest x = true /\ exists t, ticks x.1.2 = Ok t)
                   [(py_int 0, py_int 4, None);
                    (py_float (float_literal 25 100),
                     py_float (float_literal 27428571428571427 1000000000000000),
                     Some {| container_notes := []; container_bpm := None |})]).
  { repeat constructor; cbn [fst snd]; eauto. }
  split; [exact Hall|]. split; [exact Hquarter|]. split; [exact Htriplet|].
  rewrite (@rests_accumulate standard_midi_events exact_log standard_notes _ _ Hall).
  unfold total_ticks. cbn [fold_right fst snd]. rewrite Hquarter, Htriplet.
  reflexivity.
Defined.


Lemma play_Track_without_name_witness :
  let track := {| content_name := None; content_instrument_number := Some 5;
                  content_bars := [] |} in
  content_name track = None
  /\ @MidiTrack_play_Track standard_midi_events standard_meta_events standard_keys
       exact_log standard_notes track MidiTrack_attributes
     = (MidiTrack_attributes, Raise TypeError).
Proof.
  cbv zeta. split; [reflexivity|].
  apply (@play_Track_without_name standard_midi_events standard_meta_events
           standard_keys exact_log standard_notes).
  reflexivity.
Defined.

(** ** Rendering tracks into the score *)

Lemma keeps_instruments_ret {A} (a : A) : keeps_instruments (ret a).
Proof. intros self. reflexivity. Qed.

Lemma keeps_instruments_bind {A B} (m : M Sequencer A) (k : A -> M Sequencer B) :
  keeps_instruments m -> (forall a, keeps_instruments (k a)) ->
  keeps_instruments (bind m k).
Proof.
  intros Hm Hk self. unfold bind. specialize (Hm self).
  destruct (m self) as [s [a|e]]; cbn in *.
  - rewrite (Hk a s). exact Hm.
  - exact Hm.
Qed.

Lemma keeps_instruments_for_each {A} (f : A -> M Sequencer unit) (xs : list A) :
  (forall x, keeps_instruments (f x)) -> keeps_instruments (for_each f xs).
Proof.
  intros Hf. induction xs as [|x xs IH]; cbn [for_each].
  - apply keeps_instruments_ret.
  - apply keeps_instruments_bind; [apply Hf | intros _; exact IH].
Qed.

Lemma keeps_instruments_on_score {A} (m : M Score A) :
  keeps_instruments (on_score m).
Proof. intros self. unfold on_score. destruct (m (score self)). reflexivity. Qed.

Lemma keeps_instruments_lift {A} (f : Sequencer -> outcome A) :
  keeps_instruments (lift f).
Proof. intros self. reflexivity. Qed.

Lemma keeps_instruments_play_bars (bs : list Bar) (start_time bpm : py_number)
    (channel : Z) :
  keeps_instruments (play_bars bs start_time bpm channel).
Proof.
  revert start_time bpm. induction bs as [|bar bs IH]; intros start_time bpm.
  - apply keeps_instruments_ret.
  - cbn [play_bars].
    apply keeps_instruments_bind; [apply keeps_instruments_on_score|].
    intros len.
    apply keeps_instruments_bind; [apply keeps_instruments_lift|].
    intros start_time'. apply IH.
Qed.

Lemma keeps_instruments_play_Track (track : Track) (channel : Z) (bpm : py_number) :
  keeps_instruments (play_Track track channel bpm).
Proof.
  unfold play_Track.
  apply keeps_instruments_bind; [apply keeps_instruments_play_bars|]. intros b.
  apply keeps_instruments_bind.
  { apply keeps_instruments_for_each. intros s. apply keeps_instruments_on_score. }
  intros _. apply keeps_instruments_for_each. intros e.
  apply keeps_instruments_on_score.
Qed.

Lemma keeps_instruments_render_tracks (tracks : list Track) (channels : list Z)
    (bpm : option py_number) :
  keeps_instruments (render_tracks tracks channels bpm).
Proof.
  revert channels bpm. induction tracks as [|t tracks IH]; intros channels bpm.
  - apply keeps_instruments_ret.
  - destruct channels as [|c channels]; [apply keeps_instruments_ret|].
    cbn [render_tracks]. apply keeps_instruments_bind;
      [apply keeps_instruments_play_Track | intros _; apply IH].
Qed.

Lemma assignments_cons (t : Track) (tracks : list Track) (c : Z) (cs : list Z) :
  assignments (t :: tracks) (c :: cs)
  = match track_instrument t with
    | Some i => (c, i) :: assignments tracks cs
    | None => assignments tracks cs
    end.
Proof. unfold assignments. cbn. destruct (track_instrument t); reflexivity. Qed.

(** The first loop of [play_Tracks] when no channel is missing. *)
Lemma add_instruments_Ok (tracks : list Track) (channels : list Z) (k : nat)
    (self : Sequencer) :
  (k + length tracks <= length channels)%nat ->
  add_instruments tracks channels k self
  = ({| score := score self;
        instruments := instruments self ++ assignments tracks (drop k channels) |},
     Ok tt).
Proof.
  revert k self. induction tracks as [|t tracks IH]; intros k self Hlen.
  - cbn. unfold ret, assignments. cbn. rewrite app_nil_r. destruct self; reflexivity.
  - cbn [length] in Hlen. cbn [add_instruments].
    destruct (lookup_lt_is_Some_2 channels k ltac:(lia)) as [c Hc].
    rewrite (drop_S _ _ _ Hc), assignments_cons.
    destruct (track_instrument t) as [instr|].
    + unfold bind at 1. unfold bind at 1. cbn [lift]. rewrite Hc. cbn [modify].
      rewrite IH by lia. cbn. rewrite <- app_assoc. reflexivity.
    + unfold bind at 1. cbn [ret]. rewrite IH by lia. reflexivity.
Qed.

Lemma play_Tracks_assignments (tracks : list Track) (channels : list Z)
    (bpm : option py_number) (self : Sequencer) :
  (length tracks <= length channels)%nat ->
  instruments (play_Tracks tracks channels bpm self).1
  = instruments self ++ assignments tracks channels.
Proof.
  intros Hlen. unfold play_Tracks. unfold bind.
  rewrite add_instruments_Ok by (cbn; lia). rewrite drop_0.
  rewrite (keeps_instruments_render_tracks tracks channels bpm). reflexivity.
Qed.

(** X19.  When there are at least as many channels as tracks, [play_Tracks]
    adds to the instrument list, behind what it held, one pair of channel
    and instrument for every track that has an instrument, in the order of
    the tracks, whether rendering the tracks then succeeds or not. *)
Theorem play_Tracks_instruments (tracks : list Track) (channels : list Z)
    (bpm : option py_number) (self : Sequencer) :
  (length tracks <= length channels)%nat ->
  instruments (play_Tracks tracks channels bpm self).1
  = instruments self ++ assignments tracks channels.
Proof. apply play_Tracks_assignments. Qed.

(** X20.  [play_Composition] without channels never lacks a channel: the
    track at position [i] is given the channel [i + 1], so that setting the
    instruments always succeeds; the instrument list grows by the pairs of
    these channels and the instruments of the tracks that have one, and the
    call is the rendering of the tracks on these channels, whatever that
    does. *)
Theorem play_Composition_default_channels (tracks : list Track)
    (bpm : option py_number) (self : Sequencer) :
  let channels := (fun x => x + 1) <$> seqZ 0 (Z.of_nat (length tracks)) in
  play_Composition tracks None bpm self
  = render_tracks tracks channels bpm
      {| score := score self;
         instruments := instruments self ++ assignments tracks channels |}
  /\ instruments (play_Composition tracks None bpm self).1
     = instruments self ++ assignments tracks channels.
Proof.
  intros channels. unfold play_Composition. fold channels.
  assert (Hlen : (length tracks <= length channels)%nat)
    by (unfold channels; rewrite length_fmap, length_seqZ; lia).
  split; [|apply play_Tracks_assignments; exact Hlen].
  unfold play_Tracks, bind.
  rewrite add_instruments_Ok by (cbn; lia). rewrite drop_0. reflexivity.
Qed.

Lemma play_Tracks_instruments_witness :
  let piano := {| number := 1; bank := 0 |} in
  let bass := {| number := 33; bank := 0 |} in
  let track i := {| bars := []; snippets := []; events := [];
                    track_bpm := py_int 120; track_instrument := i |} in
  let tracks := [track (Some piano); track None; track (Some bass)] in
  (length tracks <= length [3; 4; 5])%nat
  /\ instruments (play_Tracks tracks [3; 4; 5] None
                    {| score := ∅; instruments := [] |}).1
     = [(3, piano); (5, bass)].
Proof.
  cbv zeta. split; [cbn; lia|].
  rewrite play_Tracks_instruments by (cbn; lia). reflexivity.
Defined.

Lemma play_Composition_default_channels_witness :
  let piano := {| number := 1; bank := 0 |} in
  let bass := {| number := 33; bank := 0 |} in
  let track i := {| bars := []; snippets := []; events := [];
                    track_bpm := py_int 120; track_instrument := i |} in
  instruments (play_Composition [track (Some piano); track None; track (Some bass)]
                 None (Some (py_int 120)) {| score := ∅; instruments := [] |}).1
  = [(1, piano); (3, bass)].
Proof.
  cbv zeta.
  match goal with |- instruments (play_Composition ?ts None ?b ?s).1 = _ =>
    destruct (play_Composition_default_channels ts b s) as [_ ->] end.
  reflexivity.
Defined.

(** ** Loading a damaged snapshot *)

(** What [int] accepts and what it refuses. *)
Lemma int_of_str_examples :
  int_of_str "+5" = Ok 5 /\ int_of_str " 5 " = Ok 5 /\ int_of_str "1_0" = Ok 10
  /\ int_of_str "-012" = Ok (-12)
  /\ int_of_str "1__0" = Raise ValueError /\ int_of_str "5_" = Raise ValueError
  /\ int_of_str "- 5" = Raise ValueError /\ int_of_str "" = Raise ValueError
  /\ int_of_str "5.0" = Raise ValueError.
Proof. repeat split; vm_compute; reflexivity. Qed.

(** [int] raises nothing but [ValueError]. *)
Lemma int_of_str_ValueError (s : string) (e : exn) :
  int_of_str s = Raise e -> e = ValueError.
Proof.
  unfold int_of_str.
  repeat match goal with
         | |- context [match ?x with _ => _ end] => destruct x
         end; congruence.
Qed.

Lemma int_keys_bad_key (items : list (string * list event)) (acc : Score)
    (k : string) (v : list event) :
  (k, v) ∈ items -> int_of_str k = Raise ValueError ->
  int_keys items acc = Raise ValueError.
Proof.
  intros Hin Hk. revert acc. induction items as [|[k' v'] items IH]; intros acc.
  - inversion Hin.
  - cbn [int_keys]. apply elem_of_cons in Hin as [[= <- <-] | Hin].
    + rewrite Hk. reflexivity.
    + destruct (int_of_str k') as [n|e] eqn:Hk'.
      * cbn [outcome_bind]. apply IH. exact Hin.
      * rewrite (int_of_str_ValueError k' e Hk'). reflexivity.
Qed.

Section Damaged_snapshot.
Context `{mingus_json}.

(** X21.  [load_tracks] does not take a snapshot whole or not at all: when
    the events can be read but [int] refuses one key of the score, the call
    raises [ValueError] with the instrument list already replaced by that
    of the snapshot and the score still the old one. *)
Theorem load_tracks_bad_key (d : document) (data : loaded) (self : Sequencer)
    (k : string) (v : list event) :
  mingus_json_load d = Ok data ->
  (k, v) ∈ data_score data ->
  int_of_str k = Raise ValueError ->
  load_tracks d self
  = ({| score := score self; instruments := data_instruments data |},
     Raise ValueError).
Proof.
  intros Hload Hin Hk. unfold load_tracks, bind, lift, modify.
  rewrite Hload. cbn.
  rewrite (int_keys_bad_key _ _ k v Hin Hk). reflexivity.
Qed.

End Damaged_snapshot.

Lemma load_tracks_bad_key_witness :
  let piano := {| number := 1; bank := 0 |} in
  let d := @Build_document transparent_json [(1, piano)]
             [("0"%string, [other_func "a"]); ("soon"%string, [other_func "b"])] in
  let self := {| score := {[ 7 := [other_func "old"] ]}; instruments := [] |} in
  int_of_str "soon" = Raise ValueError
  /\ @load_tracks transparent_json d self
     = ({| score := {[ 7 := [other_func "old"] ]}; instruments := [(1, piano)] |},
        Raise ValueError).
Proof.
  cbv zeta. split; [reflexivity|].
  rewrite (@load_tracks_bad_key transparent_json _
             (Build_loaded [(1, {| number := 1; bank := 0 |})]
                [("0"%string, [other_func "a"]); ("soon"%string, [other_func "b"])])
             _ "soon" [other_func "b"]).
  - reflexivity.
  - reflexivity.
  - cbn. apply elem_of_cons. right. apply elem_of_cons. left. reflexivity.
  - reflexivity.
Defined.

(** ** Control changes *)

(** X22.  [MidiControl] is recovered from its value, and only the seven
    values of its members are accepted; so a [ControlChangeEvent] built
    again from the entries that [to_json] writes is the event itself. *)
Theorem ControlChangeEvent_to_json_roundtrip (self : ControlChangeEvent.t) :
  (forall c, MidiControl_of_int (MidiControl_value c) = Ok c)
  /\ (forall n c, MidiControl_of_int n = Ok c -> MidiControl_value c = n)
  /\ (let '(beat, control, value) := ControlChangeEvent_to_json self in
      ControlChangeEvent_init beat (inl control) value = Ok self).
Proof.
  split; [|split].
  - intros []; reflexivity.
  - intros n c. unfold MidiControl_of_int.
    destruct (Z.eqb_spec n 1) as [->|_]; [intros [= <-]; reflexivity|].
    destruct (Z.eqb_spec n 7) as [->|_]; [intros [= <-]; reflexivity|].
    destruct (Z.eqb_spec n 10) as [->|_]; [intros [= <-]; reflexivity|].
    destruct (Z.eqb_spec n 11) as [->|_]; [intros [= <-]; reflexivity|].
    destruct (Z.eqb_spec n 64) as [->|_]; [intros [= <-]; reflexivity|].
    destruct (Z.eqb_spec n 91) as [->|_]; [intros [= <-]; reflexivity|].
    destruct (Z.eqb_spec n 93) as [->|_]; [intros [= <-]; reflexivity|].
    intros Hraise. discriminate Hraise.
  - unfold ControlChangeEvent_to_json, ControlChangeEvent_init.
    destruct self as [b [] v]; reflexivity.
Qed.

Lemma ControlChangeEvent_to_json_roundtrip_witness :
  let event := {| ControlChangeEvent.beat := py_int 4;
                  ControlChangeEvent.control := SUSTAIN;
                  ControlChangeEvent.value := 127 |} in
  ControlChangeEvent_to_json event = (py_int 4, 64, 127)
  /\ MidiControl_of_int 64 = Ok SUSTAIN
  /\ MidiControl_value SUSTAIN = 64
  /\ ControlChangeEvent_init (py_int 4) (inl 64) 127 = Ok event.
Proof.
  cbv zeta.
  destruct (ControlChangeEvent_to_json_roundtrip
              {| ControlChangeEvent.beat := py_int 4;
                 ControlChangeEvent.control := SUSTAIN;
                 ControlChangeEvent.value := 127 |}) as (Hto & Hback & Hinit).
  split; [reflexivity|]. split; [exact (Hto SUSTAIN)|].
  split; [exact (Hback 64 SUSTAIN eq_refl) | exact Hinit].
Defined.

(** ** Control changes of a track in the score *)

Lemma for_each_snoc {S A} (f : A -> M S unit) (xs : list A) (x : A) (s : S) :
  for_each f (xs ++ [x]) s = (for_each f xs ;;; f x)%py s.
Proof.
  revert s. induction xs as [|y xs IH]; intros s; cbn [for_each app].
  - unfold bind, ret. destruct (f x s) as [s' [[]|e]]; reflexivity.
  - change (bind (f y) (fun _ => for_each f (xs ++ [x])) s
            = bind (bind (f y) (fun _ => for_each f xs)) (fun _ => f x) s).
    unfold bind at 1. unfold bind at 2. unfold bind at 1.
    destruct (f y s) as [s' [[]|e]]; [|reflexivity].
    rewrite IH. reflexivity.
Qed.

(** The loop over the bars leaves the [bpm] of the last bar that has one
    of its own. *)
Lemma play_bars_bpm (bs : list Bar) (start_time bpm : py_number) (channel : Z)
    (self s : Sequencer) (b : py_number) :
  play_bars bs start_time bpm channel self = (s, Ok b) ->
  b = final_bpm bs bpm.
Proof.
  revert start_time bpm self.
  induction bs as [|bar bs IH]; intros start_time bpm self.
  - cbn. unfold ret. intros [= _ <-]. reflexivity.
  - cbn [play_bars final_bpm fold_left]. unfold bind, on_score, lift.
    destruct (bar_play bar start_time (or_bpm (bar_bpm bar) bpm) channel (score self))
      as [sc [len|e]]; [|discriminate].
    destruct (plus start_time len) as [start_time'|e]; [|discriminate].
    apply IH.
Qed.

(** X23.  An event added to a track with [add_event] is the last thing
    that [Sequencer.play_Track] records: if the track without the event is
    rendered and the timestamp of the event is computed, from the [bpm]
    that the last bar with a [bpm] of its own has left, then the track with
    the event is rendered to the same score with the event appended to the
    bucket of that timestamp. *)
Theorem play_Track_added_event (event : ControlChangeEvent.t) (track : Track)
    (channel : Z) (bpm : py_number) (self s : Sequencer) (t : Z) :
  play_Track track channel bpm self = (s, Ok tt) ->
  ControlChangeEvent.timestamp event (final_bpm (bars track) bpm) = Ok t ->
  play_Track (add_event event track) channel bpm self
  = ({| score :=
          <[t := default [] (score s !! t)
                 ++ [control_change channel (ControlChangeEvent.control event)
                       (ControlChangeEvent.value event)]]> (score s);
        instruments := instruments s |}, Ok tt).
Proof.
  intros Hplay Ht. unfold play_Track in *.
  cbn [add_event bars snippets events].
  unfold bind at 1 in Hplay. unfold bind at 1.
  destruct (play_bars (bars track) (py_int 0) bpm channel self)
    as [s1 [b|e]] eqn:H1; [|discriminate].
  apply play_bars_bpm in H1 as ->.
  unfold bind at 1 in Hplay. unfold bind at 1.
  destruct (for_each _ (snippets track) s1) as [s2 [[]|e]]; [|discriminate].
  rewrite for_each_snoc. unfold bind at 1. rewrite Hplay.
  unfold on_score, ControlChangeEvent.put_into_score, bind, lift, modify.
  rewrite Ht. reflexivity.
Qed.

Lemma play_Track_added_event_witness :
  let event := {| ControlChangeEvent.beat := py_float (float_literal 3375 1000);
                  ControlChangeEvent.control := CHORUS;
                  ControlChangeEvent.value := 100 |} in
  let marker := {| ControlChangeEvent.beat := py_int 0;
                   ControlChangeEvent.control := VOLUME;
                   ControlChangeEvent.value := 90 |} in
  let fast := {| bar_bpm := Some (py_int 200);
                 bar_play := fun _ _ _ sc => (sc, Ok (py_int 1000)) |} in
  let track := {| bars := [fast]; snippets := []; events := [marker];
                  track_bpm := py_int 120; track_instrument := None |} in
  let self := {| score := ∅; instruments := [] |} in
  ControlChangeEvent.timestamp event (final_bpm (bars track) (py_int 120)) = Ok 1013
  /\ play_Track (add_event event track) 1 (py_int 120) self
     = ({| score := {[ 0 := [control_change 1 VOLUME 90];
                       1013 := [control_change 1 CHORUS 100] ]};
           instruments := [] |}, Ok tt).
Proof.
  cbv zeta. split; [vm_compute; reflexivity|].
  rewrite (play_Track_added_event _ _ 1 (py_int 120) _
             {| score := {[ 0 := [control_change 1 VOLUME 90] ]}; instruments := [] |}
             1013).
  - vm_compute. reflexivity.
  - vm_compute. reflexivity.
  - vm_compute. reflexivity.
Defined.

(** ** How long playback sleeps *)










(** ** The methods of [Note] *)

Lemma accidentals_plus (rest : string) (a b : Z) :
  accidentals rest (a + b) = accidentals rest a + b.
Proof.
  revert a. induction rest as [|c rest IH]; intros a; cbn [accidentals].
  - reflexivity.
  - destruct (Ascii.eqb c "#"); [|destruct (Ascii.eqb c "b")].
    + replace (a + b + 1) with (a + 1 + b) by lia. apply IH.
    + replace (a + b - 1) with (a - 1 + b) by lia. apply IH.
    + apply IH.
Qed.

(** Moving a note by whole octaves moves its pitch by twelve semitones
    each. *)
Lemma Note_int_octave `{core_notes} (name : string) (octave octave' : Z)
    (v v' : Z) (c c' : option Z) (k : Z) :
  Note_int (MkNote name octave v c) = Ok k ->
  Note_int (MkNote name octave' v' c') = Ok (k + 12 * (octave' - octave)).
Proof.
  cbn [Note_int]. destruct name as [|x rest]; [discriminate|].
  destruct (note_to_int x) as [k0|]; [|discriminate].
  intros [= <-]. f_equal. rewrite <- accidentals_plus. f_equal. lia.
Qed.

(** X25.  [change_octave] that does not go below octave 0 moves the pitch
    of the note, as [int] gives it, by twelve semitones for every octave. *)
Theorem change_octave_pitch `{core_notes} (diff : Z) (self : Note_attributes) (k : Z) :
  Note_int (Note_of self) = Ok k ->
  0 <= attr_octave self + diff ->
  (change_octave diff self).2 = Ok tt
  /\ Note_int (Note_of (change_octave diff self).1) = Ok (k + 12 * diff).
Proof.
  intros Hint Hfloor. split; [reflexivity|].
  unfold change_octave, modify. cbn [fst with_octave attr_octave].
  destruct (Z.ltb_spec (attr_octave self + diff) 0) as [Hneg|_]; [lia|].
  unfold Note_of in *. cbn [with_octave attr_name attr_octave attr_velocity attr_channel].
  rewrite (Note_int_octave _ _ (attr_octave self + diff) _ (attr_velocity self)
             _ (attr_channel self) _ Hint).
  f_equal. lia.
Qed.

Lemma change_octave_pitch_witness :
  let self := {| attr_name := "F#"; attr_octave := 4;
                 attr_velocity := 64; attr_channel := None |} in
  @Note_int standard_notes (Note_of self) = Ok 54
  /\ @Note_int standard_notes (Note_of (change_octave (-3) self).1) = Ok 18.
Proof.
  cbv zeta. split; [reflexivity|].
  destruct (@change_octave_pitch standard_notes (-3)
              {| attr_name := "F#"; attr_octave := 4;
                 attr_velocity := 64; attr_channel := None |} 54
              eq_refl ltac:(cbn; lia)) as [_ Hpitch].
  exact Hpitch.
Defined.

(** X26.  If the two tables of the library agree, [Note(integer)] is a
    note whose [int] is [integer] again, for negative integers too; the
    velocity and the channel are taken as given, with no check of their
    range. *)
Theorem Note_init_int_roundtrip `{core_notes} `{core_note_names}
    (integer octave : Z) (dynamics : option dynamics_dict) (velocity : Z)
    (channel : option Z) :
  names_agree ->
  exists note,
    Note_init (name_int integer) octave dynamics velocity channel = Ok note
    /\ Note_int note = Ok integer
    /\ Note_velocity note = velocity
    /\ Note_channel note = channel.
Proof.
  intros Hagree.
  exists (MkNote (int_to_note (integer mod 12)) (integer / 12) velocity channel).
  split; [reflexivity|]. split; [|split; reflexivity].
  pose proof (Hagree (integer mod 12) (Z.mod_pos_bound integer 12 eq_refl)) as Hname.
  rewrite (Note_int_octave _ _ (integer / 12) _ velocity _ channel _ Hname).
  f_equal. pose proof (Z.div_mod integer 12). lia.
Qed.

Lemma standard_names_agree : @names_agree standard_notes standard_note_names.
Proof.
  intros i Hi.
  assert (Hcases : i = 0 \/ i = 1 \/ i = 2 \/ i = 3 \/ i = 4 \/ i = 5 \/ i = 6
                   \/ i = 7 \/ i = 8 \/ i = 9 \/ i = 10 \/ i = 11) by lia.
  repeat (destruct Hcases as [-> | Hcases]; [reflexivity|]).
  subst i. reflexivity.
Qed.

Lemma Note_init_int_roundtrip_witness :
  exists note,
    @Note_init standard_note_names (name_int (-1)) 4 None 500 None = Ok note
    /\ @Note_int standard_notes note = Ok (-1)
    /\ Note_velocity note = 500
    /\ Note_channel note = None.
Proof.
  exact (@Note_init_int_roundtrip standard_notes standard_note_names
           (-1) 4 None 500 None standard_names_agree).
Defined.

(** *** Helmholtz shorthand *)

Lemma string_app_cons (c : ascii) (s1 s2 : string) :
  (String c s1 ++ s2)%string = String c (s1 ++ s2).
Proof. reflexivity. Qed.











Lemma in_chars_cases (x : ascii) (l : string) :
  in_chars x l = true -> In x (list_ascii_of_string l).
Proof.
  induction l as [|c l IH]; cbn; [discriminate|].
  destruct (Ascii.eqb_spec x c) as [->|_]; cbn; [now left | right; now apply IH].
Qed.


Lemma split_on_plain (sep : ascii) (s : string) :
  in_chars sep s = false -> split_on sep s = [s].
Proof.
  induction s as [|c s IH]; cbn [in_chars split_on]; [reflexivity|].
  rewrite Ascii.eqb_sym.
  destruct (Ascii.eqb c sep); cbn; [discriminate|].
  intros Hrest. now rewrite IH.
Qed.


(** [set_note(name, octave, {})] on a name without a dash. *)
Lemma set_note_plain `{core_note_names} (name : string) (octave : Z)
    (self : Note_attributes) :
  in_chars "-" name = false ->
  set_note name octave (Some empty_dynamics) None None self
  = match is_valid_note name with
    | Ok true => (with_octave octave (with_name name self), Ok tt)
    | Ok false => (self, Raise NoteFormatError)
    | Raise e => (self, Raise e)
    end.
Proof.
  intros Hdash. unfold set_note. cbn [default empty_dynamics dynamics_velocity
    dynamics_channel]. rewrite (split_on_plain _ _ Hdash).
  unfold bind, ret, lift, modify, raise.
  destruct (is_valid_note name) as [[|]|e]; reflexivity.
Qed.



(** The names that the loop of [from_shorthand] builds: capital letters
    from A to G and sharps. *)
Lemma from_shorthand_loop_chars (shorthand name : string) (octave : Z) :
  forallb (fun c => in_chars c "ABCDEFG#") (list_ascii_of_string name) = true ->
  forallb (fun c => in_chars c "ABCDEFG#")
    (list_ascii_of_string (from_shorthand_loop shorthand name octave).1) = true.
Proof.
  revert name octave. induction shorthand as [|x rest IH]; intros name octave Hname.
  - exact Hname.
  - cbn [from_shorthand_loop].
    destruct (in_chars x "abcdefg") eqn:Hsmall.
    { apply IH. apply in_chars_cases in Hsmall. cbn in Hsmall.
      repeat (destruct Hsmall as [<- | Hsmall]; [reflexivity|]).
      destruct Hsmall. }
    destruct (in_chars x "ABCDEFG") eqn:Hcapital.
    { apply IH. apply in_chars_cases in Hcapital. cbn in Hcapital.
      repeat (destruct Hcapital as [<- | Hcapital]; [reflexivity|]).
      destruct Hcapital. }
    destruct (in_chars x "#b") eqn:Hsign.
    { apply IH. apply in_chars_cases in Hsign. cbn in Hsign.
      destruct Hsign as [<- | [<- | []]]; [|discriminate Hsmall].
      clear -Hname. induction name as [|c name IHname].
      - reflexivity.
      - rewrite string_app_cons. cbn [list_ascii_of_string forallb] in *.
        apply andb_prop in Hname as [Hc Hrest].
        rewrite Hc, (IHname Hrest). reflexivity. }
    destruct (Ascii.eqb x ","); [now apply IH|].
    destruct (Ascii.eqb x "'"); now apply IH.
Qed.

Lemma in_chars_excluded (x : ascii) (l name : string) :
  in_chars x l = false ->
  forallb (fun c => in_chars c l) (list_ascii_of_string name) = true ->
  in_chars x name = false.
Proof.
  intros Hx. induction name as [|c name IH]; cbn [list_ascii_of_string forallb in_chars].
  - reflexivity.
  - intros Hname. apply andb_prop in Hname as [Hc Hrest].
    rewrite (IH Hrest), orb_false_r.
    destruct (Ascii.eqb_spec x c) as [->|_]; [congruence | reflexivity].
Qed.

(** X28.  [from_shorthand] never sets a name with a flat in it: the letter
    b is always read as the note B, in octave 3, so that the shorthand that
    [to_shorthand] writes for E flat in octave 4 is read back as B in
    octave 4. *)
Theorem from_shorthand_no_flat `{core_note_names} (shorthand : string)
    (self self' : Note_attributes) :
  from_shorthand shorthand self = (self', Ok tt) ->
  in_chars "b" (attr_name self') = false.
Proof.
  unfold from_shorthand.
  pose proof (from_shorthand_loop_chars shorthand EmptyString 0 eq_refl) as Hchars.
  destruct (from_shorthand_loop shorthand EmptyString 0) as [name octave].
  cbn [fst] in Hchars.
  rewrite set_note_plain by (apply (in_chars_excluded _ "ABCDEFG#"); [reflexivity | exact Hchars]).
  destruct (is_valid_note name) as [[|]|e]; intros [= <-].
  cbn [with_octave with_name attr_name].
  apply (in_chars_excluded _ "ABCDEFG#"); [reflexivity | exact Hchars].
Qed.

Lemma from_shorthand_no_flat_witness :
  let self := {| attr_name := "Eb"; attr_octave := 4;
                 attr_velocity := 64; attr_channel := None |} in
  to_shorthand self = "eb'"%string
  /\ @from_shorthand standard_note_names (to_shorthand self) self
     = ({| attr_name := "B"; attr_octave := 4;
           attr_velocity := 64; attr_channel := None |}, Ok tt)
  /\ in_chars "b" "B" = false.
Proof.
  cbv zeta. split; [reflexivity|]. split; [reflexivity|].
  exact (@from_shorthand_no_flat standard_note_names "eb'"
           {| attr_name := "Eb"; attr_octave := 4;
              attr_velocity := 64; attr_channel := None |}
           {| attr_name := "B"; attr_octave := 4;
              attr_velocity := 64; attr_channel := None |} eq_refl).
Defined.

(** *** The constructor *)

(** X29.  With a string for a name, [Note] raises [ValueError] for a
    velocity outside 0..127 and for a channel outside 0..15, whatever the
    name: the two are checked before the name is looked at. *)
Theorem Note_init_range_checked `{core_note_names} (name : string) (octave : Z)
    (dynamics : option dynamics_dict) (velocity : Z) (channel : option Z) :
  ~ 0 <= velocity < 128
  \/ (exists c, channel = Some c /\ ~ 0 <= c < 16) ->
  Note_init (name_str name) octave dynamics velocity channel = Raise ValueError.
Proof.
  intros Hrange. unfold Note_init, set_note.
  cbn [default from_option id dynamics_velocity dynamics_channel].
  unfold set_velocity, set_channel, bind, ret, lift, modify, raise.
  destruct ((0 <=? velocity) && (velocity <? 128)) eqn:Hv; [|reflexivity].
  destruct Hrange as [Hrange | (c & -> & Hc)]; [lia|].
  cbn [int_operand].
  assert (Hcb : (0 <=? c) && (c <? 16) = false) by lia.
  rewrite Hcb. reflexivity.
Qed.

Lemma Note_init_range_checked_witness :
  @Note_init standard_note_names (name_str "C") 4 None 200 None = Raise ValueError
  /\ @Note_init standard_note_names (name_str "C") 4 None 64 (Some 16)
     = Raise ValueError.
Proof.
  split.
  - apply (@Note_init_range_checked standard_note_names "C" 4 None 200 None).
    left. lia.
  - apply (@Note_init_range_checked standard_note_names "C" 4 None 64 (Some 16)).
    right. exists 16. split; [reflexivity | lia].
Defined.

(** X30.  Copying a note that has no channel fails: [Note(other)] for a
    note [other] whose [channel] is [None], as it is unless one was given,
    raises [TypeError], because the [dynamics] of [other] carry the key
    ["channel"] with the value [None], which [set_channel] compares with
    0. *)
Theorem Note_init_copy_without_channel `{core_note_names} (other : Note_attributes)
    (octave : Z) (dynamics : option dynamics_dict) (velocity : Z)
    (channel : option Z) :
  attr_channel other = None ->
  0 <= attr_velocity other < 128 ->
  Note_init (name_Note other) octave dynamics velocity channel = Raise TypeError.
Proof.
  intros Hchannel Hvelocity. unfold Note_init, set_note.
  cbn [default from_option id Note_dynamics dynamics_velocity dynamics_channel].
  rewrite Hchannel.
  unfold set_velocity, set_channel, bind, ret, lift, modify, raise.
  assert (Hv : (0 <=? attr_velocity other) && (attr_velocity other <? 128) = true)
    by lia.
  rewrite Hv. reflexivity.
Qed.

Lemma Note_init_copy_without_channel_witness :
  let other := {| attr_name := "C"; attr_octave := 4;
                  attr_velocity := 64; attr_channel := None |} in
  @Note_init standard_note_names (name_str "C") 4 None 64 None = Ok (Note_of other)
  /\ @Note_init standard_note_names (name_Note other) 4 None 64 None
     = Raise TypeError.
Proof.
  cbv zeta. split; [reflexivity|].
  apply (@Note_init_copy_without_channel standard_note_names
           {| attr_name := "C"; attr_octave := 4;
              attr_velocity := 64; attr_channel := None |} 4 None 64 None).
  - reflexivity.
  - cbn. lia.
Defined.
